(** * Verification of the promptwire-tools JSON repair pipeline and handlers

    Source files:
    - [src/unnamed/part_001]: the Groq handler with [extractJsonObject],
      [sanitizeCommonBreakers] and [escapeNewlinesInsideStrings];
    - [src/api/gemini.js]: the Gemini handler (gemini-2.5-flash);
    - [src/unnamed/part_000]: the older Gemini handler (gemini-2.0-flash).

    JavaScript strings are sequences of UTF-16 code units; a code unit is an
    [N] below 65536 and a string is a [list N].  [indexOf], [lastIndexOf],
    [slice], [length] and regular expressions all work on code units. *)

From Stdlib Require Import List NArith ZArith String Ascii Bool Lia.
From Stdlib Require Import Numbers.DecimalString.
Import ListNotations.
#[local] Set Warnings "-register-all".
(* String literals are JavaScript property names and header values;
   [++] stays the list concatenation. *)
Open Scope string_scope.
Open Scope list_scope.

(** ** Characters and strings *)

Definition char := N.
Definition jstr := list char.

(** A Rocq (ASCII) string literal as a JavaScript string. *)
Definition str (s : string) : jstr :=
  map (fun a => N_of_ascii a) (list_ascii_of_string s).

Definition ch_quote : char := 34%N.      (* double quote *)
Definition ch_backslash : char := 92%N.  (* backslash *)
Definition ch_lbrace : char := 123%N.    (* left brace *)
Definition ch_rbrace : char := 125%N.    (* right brace *)
Definition ch_lbrack : char := 91%N.     (* left bracket *)
Definition ch_rbrack : char := 93%N.     (* right bracket *)
Definition ch_comma : char := 44%N.      (* comma *)
Definition ch_colon : char := 58%N.      (* colon *)
Definition ch_LF : char := 10%N.         (* line feed *)
Definition ch_CR : char := 13%N.         (* carriage return *)
Definition ch_TAB : char := 9%N.         (* tab *)
Definition ch_space : char := 32%N.
Definition ch_n : char := 110%N.         (* letter n *)
Definition ch_t : char := 116%N.         (* letter t *)
Definition ch_LS : char := 8232%N.       (* U+2028 LINE SEPARATOR *)
Definition ch_PS : char := 8233%N.       (* U+2029 PARAGRAPH SEPARATOR *)

(** ** [extractJsonObject] (part_001, lines 5-10)

    [indexOf], [lastIndexOf] and [slice] exist on strings and on arrays
    alike; they are written once over a list and an equality test. *)

Section ListSearch.
Context {A : Type} (eqb : A -> A -> bool).

Fixpoint index_of_from (c : A) (s : list A) (i : Z) : Z :=
  match s with
  | [] => (-1)%Z
  | x :: r => if eqb x c then i else index_of_from c r (i + 1)
  end.

(** [s.indexOf(c)] *)
Definition indexOf (s : list A) (c : A) : Z := index_of_from c s 0.

Fixpoint last_index_of_from (c : A) (s : list A) (i acc : Z) : Z :=
  match s with
  | [] => acc
  | x :: r => last_index_of_from c r (i + 1) (if eqb x c then i else acc)
  end.

(** [s.lastIndexOf(c)] *)
Definition lastIndexOf (s : list A) (c : A) : Z := last_index_of_from c s 0 (-1).

(** [s.slice(start, end)] for [0 <= start <= end]. *)
Definition slice (s : list A) (start stop : Z) : list A :=
  firstn (Z.to_nat (stop - start)) (skipn (Z.to_nat start) s).

(** The body of [extractJsonObject], with [open] and [close] for the two
    braces; [null] is [None]. *)
Definition extract_by (open close : A) (text : list A) : option (list A) :=
  let start := indexOf text open in
  let end_ := lastIndexOf text close in
  if (Z.eqb start (-1) || Z.eqb end_ (-1) || Z.leb end_ start)%bool then None
  else Some (slice text start (end_ + 1)).

End ListSearch.

Definition extractJsonObject (text : jstr) : option jstr :=
  extract_by N.eqb ch_lbrace ch_rbrace text.

(** ** [sanitizeCommonBreakers] (part_001, lines 12-19) *)

(** [s.replace(/x/g, ...)] with a two-unit replacement: every code unit [x] becomes backslash, [n]. *)
Definition replace_char_by_bs_n (x : char) (s : jstr) : jstr :=
  flat_map (fun c => if N.eqb c x then [ch_backslash; ch_n] else [c]) s.

(** The regular expression class [\s] of ECMAScript: WhiteSpace and
    LineTerminator code units. *)
Definition is_js_ws (c : char) : bool :=
  (N.eqb c 9 || N.eqb c 10 || N.eqb c 11 || N.eqb c 12 || N.eqb c 13
   || N.eqb c 32 || N.eqb c 160 || N.eqb c 5760
   || (N.leb 8192 c && N.leb c 8202)
   || N.eqb c 8232 || N.eqb c 8233 || N.eqb c 8239 || N.eqb c 8287
   || N.eqb c 12288 || N.eqb c 65279)%bool.

Definition is_closer (c : char) : bool := (N.eqb c ch_rbrace || N.eqb c ch_rbrack)%bool.

(** The part [\s*([}\]])] of the pattern, tried right after a comma.  The
    greedy [\s*] never needs to backtrack: a code unit of [\s] is never
    a closer.  Returns the captured closer and the text after the match. *)
Fixpoint ws_then_closer (s : jstr) : option (char * jstr) :=
  match s with
  | [] => None
  | c :: r =>
      if is_js_ws c then ws_then_closer r
      else if is_closer c then Some (c, r) else None
  end.

(** Global replacement [s.replace(/,\s*([}\]])/g, ...)] keeping the capture group: the scan tries a
    match at each position; on success the match is replaced by the captured
    closer and the scan resumes after it, otherwise the code unit is kept.
    [fuel] bounds the number of positions. *)
Fixpoint strip_go (fuel : nat) (s : jstr) : jstr :=
  match fuel with
  | O => s
  | S f =>
      match s with
      | [] => []
      | c :: r =>
          if N.eqb c ch_comma then
            match ws_then_closer r with
            | Some (cl, rest) => cl :: strip_go f rest
            | None => c :: strip_go f r
            end
          else c :: strip_go f r
      end
  end.

Definition strip_trailing_commas (s : jstr) : jstr := strip_go (List.length s) s.

Definition sanitizeCommonBreakers (s : jstr) : jstr :=
  strip_trailing_commas (replace_char_by_bs_n ch_PS (replace_char_by_bs_n ch_LS s)).

(** ** [escapeNewlinesInsideStrings] (part_001, lines 24-74) *)

Record scan_state := mk_scan { inString : bool; escaped : bool }.

Definition scan_init : scan_state := mk_scan false false.

(** The flags inside a string, not after a backslash. *)
Definition in_str : scan_state := mk_scan true false.

(** One iteration of the [for] loop: what is appended to [out], and the
    flags afterwards. *)
Definition step (st : scan_state) (ch : char) : jstr * scan_state :=
  if inString st then
    if escaped st then ([ch], mk_scan true false)
    else if N.eqb ch ch_backslash then ([ch], mk_scan true true)
    else if N.eqb ch ch_quote then ([ch], mk_scan false (escaped st))
    else if N.eqb ch ch_LF then ([ch_backslash; ch_n], st)
    else if N.eqb ch ch_CR then ([], st)
    else if N.eqb ch ch_TAB then ([ch_backslash; ch_t], st)
    else ([ch], st)
  else if N.eqb ch ch_quote then ([ch], mk_scan true (escaped st))
  else ([ch], st).

Fixpoint escape_go (st : scan_state) (s : jstr) : jstr :=
  match s with
  | [] => []
  | ch :: r => let '(o, st') := step st ch in o ++ escape_go st' r
  end.

(** The flags after the loop has read [s]. *)
Fixpoint final_state (st : scan_state) (s : jstr) : scan_state :=
  match s with
  | [] => st
  | ch :: r => final_state (snd (step st ch)) r
  end.

Definition escapeNewlinesInsideStrings (jsonStr : jstr) : jstr :=
  escape_go scan_init jsonStr.

(** ** Strict JSON syntax (RFC 8259), as accepted by [JSON.parse]

    [json_text s] says that [JSON.parse(s)] succeeds.  String literals hold
    UTF-16 code units; an unescaped one is at least U+0020 and is neither
    the double quote nor the backslash. *)

Definition is_json_ws (c : char) : bool :=
  (N.eqb c 32 || N.eqb c 9 || N.eqb c 10 || N.eqb c 13)%bool.

Definition json_ws (w : jstr) : Prop := Forall (fun c => is_json_ws c = true) w.

Definition is_digit (c : char) : bool := (N.leb 48 c && N.leb c 57)%bool.

Definition is_hex (c : char) : bool :=
  (is_digit c || (N.leb 65 c && N.leb c 70) || (N.leb 97 c && N.leb c 102))%bool.

Definition is_unescaped (c : char) : bool :=
  (N.leb 32 c && N.leb c 65535 && negb (N.eqb c ch_quote)
   && negb (N.eqb c ch_backslash))%bool.

(** The characters allowed after a backslash, apart from [u]:
    double quote, backslash, slash, [b], [f], [n], [r], [t]. *)
Definition is_escape_letter (c : char) : bool :=
  existsb (N.eqb c) [34; 92; 47; 98; 102; 110; 114; 116]%N.

Inductive str_char : jstr -> Prop :=
| sc_unescaped c : is_unescaped c = true -> str_char [c]
| sc_escape c : is_escape_letter c = true -> str_char [ch_backslash; c]
| sc_unicode h1 h2 h3 h4 :
    is_hex h1 = true -> is_hex h2 = true -> is_hex h3 = true -> is_hex h4 = true ->
    str_char [ch_backslash; 117%N; h1; h2; h3; h4].

Inductive str_body : jstr -> Prop :=
| sb_nil : str_body []
| sb_cons x b : str_char x -> str_body b -> str_body (x ++ b).

Definition json_string (s : jstr) : Prop :=
  exists b, str_body b /\ s = [ch_quote] ++ b ++ [ch_quote].

Definition digits (d : jstr) : Prop := d <> [] /\ Forall (fun c => is_digit c = true) d.

Inductive json_int : jstr -> Prop :=
| ji_zero : json_int [48%N]
| ji_nonzero d ds :
    (N.leb 49 d && N.leb d 57)%bool = true ->
    Forall (fun c => is_digit c = true) ds -> json_int (d :: ds).

Definition json_frac (f : jstr) : Prop := f = [] \/ exists ds, digits ds /\ f = 46%N :: ds.

Definition json_exp (e : jstr) : Prop :=
  e = [] \/
  exists e0 sg ds, (e0 = 101%N \/ e0 = 69%N) /\ (sg = [] \/ sg = [43%N] \/ sg = [45%N])
                   /\ digits ds /\ e = e0 :: sg ++ ds.

Definition json_number (s : jstr) : Prop :=
  exists m i f e, (m = [] \/ m = [45%N]) /\ json_int i /\ json_frac f /\ json_exp e
                  /\ s = m ++ i ++ f ++ e.

Inductive json_value : jstr -> Prop :=
| jv_string s : json_string s -> json_value s
| jv_number s : json_number s -> json_value s
| jv_true : json_value (str "true")
| jv_false : json_value (str "false")
| jv_null : json_value (str "null")
| jv_empty_object w : json_ws w -> json_value ([ch_lbrace] ++ w ++ [ch_rbrace])
| jv_object m : json_members m -> json_value ([ch_lbrace] ++ m ++ [ch_rbrace])
| jv_empty_array w : json_ws w -> json_value ([ch_lbrack] ++ w ++ [ch_rbrack])
| jv_array e : json_elements e -> json_value ([ch_lbrack] ++ e ++ [ch_rbrack])
with json_member : jstr -> Prop :=
| jmem w1 k w2 w3 v w4 :
    json_ws w1 -> json_string k -> json_ws w2 -> json_ws w3 -> json_value v ->
    json_ws w4 -> json_member (w1 ++ k ++ w2 ++ [ch_colon] ++ w3 ++ v ++ w4)
with json_members : jstr -> Prop :=
| jms_one mb : json_member mb -> json_members mb
| jms_cons mb ms : json_member mb -> json_members ms -> json_members (mb ++ [ch_comma] ++ ms)
with json_elements : jstr -> Prop :=
| jes_one w1 v w2 : json_ws w1 -> json_value v -> json_ws w2 -> json_elements (w1 ++ v ++ w2)
| jes_cons w1 v w2 es :
    json_ws w1 -> json_value v -> json_ws w2 -> json_elements es ->
    json_elements (w1 ++ v ++ w2 ++ [ch_comma] ++ es).

Definition json_text (s : jstr) : Prop :=
  exists w1 v w2, json_ws w1 /\ json_value v /\ json_ws w2 /\ s = w1 ++ v ++ w2.

Scheme json_value_mind := Minimality for json_value Sort Prop
with json_member_mind := Minimality for json_member Sort Prop
with json_members_mind := Minimality for json_members Sort Prop
with json_elements_mind := Minimality for json_elements Sort Prop.

(** ** JavaScript values, exceptions and the built-ins the handlers use

    Values of parsed JSON bodies.  Numbers are integers here: no handler
    computes with a number, they are only tested for truthiness and turned
    into strings.  An object is the list of its own properties, the first
    binding of a key being the one read. *)

Inductive jvalue : Type :=
| JUndef
| JNull
| JBool (b : bool)
| JNum (n : Z)
| JStr (s : jstr)
| JArr (xs : list jvalue)
| JObj (fields : list (string * jvalue)).

(** A computation that returns a value or throws an exception, whose
    [message] is kept. *)
Inductive result (T : Type) : Type :=
| Ok (a : T)
| Throw (message : jstr).
Arguments Ok {T} a.
Arguments Throw {T} message.

Definition bind {T U : Type} (m : result T) (f : T -> result U) : result U :=
  match m with
  | Ok a => f a
  | Throw e => Throw e
  end.

Notation "'let*' x ':=' m 'in' f" := (bind m (fun x => f))
  (at level 200, x name, m at level 100, f at level 200).

(** The message of a TypeError thrown by the engine.  Its text depends on
    the engine and on the failing expression (["text.indexOf is not a
    function"], ["Cannot convert object to primitive value"], ...); one
    stand-in is used for all of them, and the statements about such errors
    below leave the message open. *)
Definition type_error : jstr := str "TypeError".

(** JavaScript truthiness. *)
Definition truthy (v : jvalue) : bool :=
  match v with
  | JUndef | JNull => false
  | JBool b => b
  | JNum n => negb (Z.eqb n 0)
  | JStr s => match s with [] => false | _ => true end
  | JArr _ | JObj _ => true
  end.

(** [v || d] *)
Definition or_else (v d : jvalue) : jvalue := if truthy v then v else d.

(** [v === "s"] *)
Definition is_str (v : jvalue) (s : jstr) : bool :=
  match v with
  | JStr t => if list_eq_dec N.eq_dec t s then true else false
  | _ => false
  end.

Fixpoint lookup_field (k : string) (fs : list (string * jvalue)) : jvalue :=
  match fs with
  | [] => JUndef
  | (k', v) :: r => if String.eqb k k' then v else lookup_field k r
  end.

(** [v.k] for the keys read by the handlers, none of which is a built-in
    property of strings, numbers or arrays. *)
Definition get (v : jvalue) (k : string) : result jvalue :=
  match v with
  | JUndef | JNull => Throw type_error
  | JObj fs => Ok (lookup_field k fs)
  | _ => Ok JUndef
  end.

(** [v?.k] *)
Definition oget (v : jvalue) (k : string) : jvalue :=
  match v with
  | JObj fs => lookup_field k fs
  | _ => JUndef
  end.

(** [v?.[0]] *)
Definition oindex0 (v : jvalue) : jvalue :=
  match v with
  | JArr (x :: _) => x
  | JStr (c :: _) => JStr [c]
  | JObj fs => lookup_field "0" fs
  | _ => JUndef
  end.

Fixpoint join (sep : jstr) (xs : list jstr) : jstr :=
  match xs with
  | [] => []
  | [x] => x
  | x :: r => x ++ sep ++ join sep r
  end.

(** Whether an object has the own property [k]. *)
Definition has_key (k : string) (fs : list (string * jvalue)) : bool :=
  existsb (fun kv => String.eqb k (fst kv)) fs.

(** Applies [f] to the elements in order and stops at the first throw. *)
Fixpoint traverse {A B : Type} (f : A -> result B) (xs : list A) : result (list B) :=
  match xs with
  | [] => Ok []
  | x :: r => let* y := f x in let* ys := traverse f r in Ok (y :: ys)
  end.

(** [String(v)], as used by template literals and [Array.prototype.join].
    An array is joined with commas, [null] and [undefined] elements giving
    the empty string.  An object converts through its [toString] method:
    the inherited one gives ["[object Object]"]; an own [toString] key of a
    parsed object holds no function, nor does [valueOf] give a primitive,
    so the conversion throws a TypeError. *)
Fixpoint to_js_string (v : jvalue) : result jstr :=
  match v with
  | JUndef => Ok (str "undefined")
  | JNull => Ok (str "null")
  | JBool true => Ok (str "true")
  | JBool false => Ok (str "false")
  | JNum n => Ok (str (NilEmpty.string_of_int (Z.to_int n)))
  | JStr s => Ok s
  | JArr xs =>
      let* ss := traverse (fun x => match x with JUndef | JNull => Ok [] | _ => to_js_string x end) xs in
      Ok (join [ch_comma] ss)
  | JObj fs => if has_key "toString" fs then Throw type_error else Ok (str "[object Object]")
  end.

(** [xs.join(sep)] on an array. *)
Definition array_join (sep : jstr) (xs : list jvalue) : result jstr :=
  let* ss := traverse (fun x => match x with JUndef | JNull => Ok [] | _ => to_js_string x end) xs in
  Ok (join sep ss).

(** [xs.map(f)]; only arrays have a [map] method. *)
Fixpoint map_go (f : jvalue -> result jvalue) (xs : list jvalue) : result (list jvalue) :=
  match xs with
  | [] => Ok []
  | x :: r => let* y := f x in let* ys := map_go f r in Ok (y :: ys)
  end.

Definition array_map (v : jvalue) (f : jvalue -> result jvalue) : result (list jvalue) :=
  match v with
  | JArr xs => map_go f xs
  | _ => Throw type_error
  end.

(** [messages.find(m => m.role === 'user')]; [undefined] when none. *)
Fixpoint find_user_go (xs : list jvalue) : result jvalue :=
  match xs with
  | [] => Ok JUndef
  | m :: r => let* role := get m "role" in
              if is_str role (str "user") then Ok m else find_user_go r
  end.

Definition find_user (messages : jvalue) : result jvalue :=
  match messages with
  | JArr xs => find_user_go xs
  | _ => Throw type_error
  end.

(** ** Responses

    [new Response(body, {status, headers})]; the body is [None] for [null]
    and otherwise the value that [JSON.stringify] serialises (it never
    throws on the values built here). *)

Record response := mk_response {
  status : Z;
  headers : list (string * string);
  body : option jvalue
}.

Fixpoint header_lookup (k : string) (hs : list (string * string)) : option string :=
  match hs with
  | [] => None
  | (k', v) :: r => if String.eqb k k' then Some v else header_lookup k r
  end.

Definition header (r : response) (k : string) : option string := header_lookup k (headers r).

Definition preflight_headers : list (string * string) :=
  [("Access-Control-Allow-Origin", "*");
   ("Access-Control-Allow-Methods", "POST, OPTIONS");
   ("Access-Control-Allow-Headers", "Content-Type")].

Definition json_cors_headers : list (string * string) :=
  [("Content-Type", "application/json"); ("Access-Control-Allow-Origin", "*")].

Definition json_only_headers : list (string * string) :=
  [("Content-Type", "application/json")].

Definition preflight_response : response := mk_response 200 preflight_headers None.

Definition error_body (e : jvalue) : jvalue := JObj [("error", e)].

(** [{ content: [{ type: "text", text }] }] *)
Definition text_envelope (text : jvalue) : jvalue :=
  JObj [("content", JArr [JObj [("type", JStr (str "text")); ("text", text)]])].

(** [req]: its method, and what [await req.json()] gives. *)
Record request := mk_request { method : string; json_body : result jvalue }.

(** The upstream call, [await (await fetch(url, init)).json()], given the
    prompt part of the request payload (the endpoint, the key and the
    generation settings are fixed). *)
Definition upstream := jvalue -> result jvalue.

Definition method_not_allowed : jvalue := error_body (JStr (str "Method not allowed")).

(** ** The Gemini handler of [src/api/gemini.js] *)

(** The [try] block, lines 25-85. *)
Definition gemini_try (req : request) (fetch_json : upstream) : result response :=
  let* body := json_body req in
  let* system := get body "system" in
  let* messages := get body "messages" in
  let* found := find_user messages in
  let userMessage := or_else (oget found "content") (JStr []) in
  let* fullPrompt :=
    if truthy system then
      let* systemText := to_js_string system in
      let* userText := to_js_string userMessage in
      Ok (JStr (str "SYSTEM INSTRUCTIONS:" ++ [ch_LF] ++ systemText ++ [ch_LF; ch_LF]
                ++ str "USER REQUEST:" ++ [ch_LF] ++ userText))
    else Ok userMessage in
  let* data := fetch_json fullPrompt in
  let* err := get data "error" in
  if truthy err then
    Ok (mk_response 400 json_cors_headers (Some (error_body err)))
  else
    let* candidates := get data "candidates" in
    let parts := or_else (oget (oget (oindex0 candidates) "content") "parts") (JArr []) in
    let* texts := array_map parts (fun p => let* t := get p "text" in Ok (or_else t (JStr []))) in
    let* text := array_join [] texts in
    Ok (mk_response 200 json_cors_headers (Some (text_envelope (JStr text)))).

Definition gemini_handler (req : request) (fetch_json : upstream) : response :=
  if String.eqb (method req) "OPTIONS" then preflight_response
  else if negb (String.eqb (method req) "POST") then
    mk_response 405 json_only_headers (Some method_not_allowed)
  else
    match gemini_try req fetch_json with
    | Ok r => r
    | Throw msg => mk_response 500 json_cors_headers (Some (error_body (JStr msg)))
    end.

(** ** The older Gemini handler of [src/unnamed/part_000] *)

(** The [try] block, lines 25-85: the envelope is built before the error
    test, from the first part only. *)
Definition gemini_v0_try (req : request) (fetch_json : upstream) : result response :=
  let* body := json_body req in
  let* system := get body "system" in
  let* messages := get body "messages" in
  let* found := find_user messages in
  let userMessage := or_else (oget found "content") (JStr []) in
  let* fullPrompt :=
    if truthy system then
      let* systemText := to_js_string system in
      let* userText := to_js_string userMessage in
      Ok (JStr (systemText ++ [ch_LF; ch_LF] ++ userText))
    else Ok userMessage in
  let* data := fetch_json fullPrompt in
  let* candidates := get data "candidates" in
  let text :=
    or_else (oget (oindex0 (oget (oget (oindex0 candidates) "content") "parts")) "text")
            (JStr []) in
  let transformedResponse := text_envelope text in
  let* err := get data "error" in
  if truthy err then
    Ok (mk_response 400 json_cors_headers (Some (error_body err)))
  else
    Ok (mk_response 200 json_cors_headers (Some transformedResponse)).

Definition gemini_v0_handler (req : request) (fetch_json : upstream) : response :=
  if String.eqb (method req) "OPTIONS" then preflight_response
  else if negb (String.eqb (method req) "POST") then
    mk_response 405 json_only_headers (Some method_not_allowed)
  else
    match gemini_v0_try req fetch_json with
    | Ok r => r
    | Throw msg => mk_response 500 json_cors_headers (Some (error_body (JStr msg)))
    end.

(** ** The Groq handler of [src/unnamed/part_001] *)

(** [x === y] between an array element and a one-character string. *)
Definition strict_eq_str (x y : jvalue) : bool :=
  match y with
  | JStr t => is_str x t
  | _ => false
  end.

(** [extractJsonObject(rawText)] on any value: strings and arrays have
    [indexOf], [lastIndexOf] and [slice]; other values throw. *)
Definition extractJsonObject_js (text : jvalue) : result jvalue :=
  match text with
  | JStr s =>
      Ok (match extractJsonObject s with Some c => JStr c | None => JNull end)
  | JArr xs =>
      Ok (match extract_by strict_eq_str (JStr [ch_lbrace]) (JStr [ch_rbrace]) xs with
          | Some c => JArr c
          | None => JNull
          end)
  | _ => Throw type_error
  end.

(** [sanitizeCommonBreakers(s)] on any value: only strings have [replace]. *)
Definition sanitizeCommonBreakers_js (s : jvalue) : result jstr :=
  match s with
  | JStr t => Ok (sanitizeCommonBreakers t)
  | _ => Throw type_error
  end.

(** The guard instruction appended to the messages (lines 109-117). *)
Definition final_requirements : jstr :=
  str "FINAL OUTPUT REQUIREMENTS:" ++ [ch_LF]
  ++ str "- Output ONLY valid JSON." ++ [ch_LF]
  ++ str "- Do NOT use the double quote character (" ++ [ch_quote]
  ++ str ") inside post text. Use single quotes instead." ++ [ch_LF]
  ++ str "- Do NOT include trailing commas." ++ [ch_LF]
  ++ str "- Any line breaks inside JSON strings must be written as " ++ [ch_backslash; ch_n]
  ++ str ", not real newlines." ++ [ch_LF].

Definition final_guard_message : jvalue :=
  JObj [("role", JStr (str "user")); ("content", JStr final_requirements)].

Section Groq.

(** [JSON.parse]: [Some v] when it returns [v], [None] when it throws. *)
Variable json_parse : jstr -> option jvalue.

(** Lines 150-189, from [rawText] on. *)
Definition groq_reply (rawText : jvalue) : result response :=
  let fallback := mk_response 200 json_cors_headers (Some (text_envelope rawText)) in
  let* candidateJson := extractJsonObject_js rawText in
  if truthy candidateJson then
    let* sanitized := sanitizeCommonBreakers_js candidateJson in
    let cleaned := escapeNewlinesInsideStrings sanitized in
    match json_parse cleaned with
    | Some parsed => Ok (mk_response 200 json_cors_headers (Some parsed))
    | None => Ok fallback
    end
  else Ok fallback.

(** [data?.choices?.[0]?.message?.content || ""] *)
Definition groq_raw_text (data : jvalue) : jvalue :=
  or_else (oget (oget (oindex0 (oget data "choices")) "message") "content") (JStr []).

(** The [try] block, lines 99-189. *)
Definition groq_try (req : request) (fetch_json : upstream) : result response :=
  let* body := json_body req in
  let b := or_else body (JObj []) in
  let* system := get b "system" in
  let* messages := get b "messages" in
  let groqMessages :=
    (if truthy system then [JObj [("role", JStr (str "system")); ("content", system)]] else [])
    ++ (match messages with JArr xs => xs | _ => [] end)
    ++ [final_guard_message] in
  let* data := fetch_json (JArr groqMessages) in
  if truthy (oget data "error") then
    Ok (mk_response 400 json_cors_headers (Some (error_body (oget data "error"))))
  else groq_reply (groq_raw_text data).

(** The handler, lines 76-202.  Its [catch] answers 500 with the error's
    message; the source's fallback [String(error)] for an empty message is
    not modelled, and the statements on this path assume a non-empty
    message. *)
Definition groq_handler (req : request) (fetch_json : upstream) : response :=
  if String.eqb (method req) "OPTIONS" then preflight_response
  else if negb (String.eqb (method req) "POST") then
    mk_response 405 json_cors_headers (Some method_not_allowed)
  else
    match groq_try req fetch_json with
    | Ok r => r
    | Throw msg => mk_response 500 json_cors_headers (Some (error_body (JStr msg)))
    end.

End Groq.

(** ** Example inputs

    [jsq] writes a test string with apostrophes standing for double
    quotes. *)

Definition jsq (s : string) : jstr :=
  map (fun c => if N.eqb c 39 then ch_quote else c) (str s).

(** [{"a": "line1<LF>line2"}] with a raw line feed. *)
Definition c3_input : jstr := jsq "{'a': 'line1" ++ [ch_LF] ++ jsq "line2'}".

(** [{"a": "line1\nline2"}] with the two-character escape. *)
Definition c3_output : jstr := jsq "{'a': 'line1" ++ [ch_backslash; ch_n] ++ jsq "line2'}".

(** [{"a": "he said \"hi\""}] *)
Definition c4_input : jstr := jsq "{'a': 'he said \'hi\''}".

(** Whether the scanner, with flags [st], reads [ch] inside a string, not
    right after a backslash, and [ch] is [c]. *)
Definition in_string_hit (st : scan_state) (ch c : char) : nat :=
  if (inString st && negb (escaped st) && N.eqb ch c)%bool then 1 else 0.

(** Number of code units equal to [c] that the scanner reads inside a
    string and not right after a backslash. *)
Fixpoint count_in_string (c : char) (st : scan_state) (s : jstr) : nat :=
  match s with
  | [] => 0
  | ch :: r => in_string_hit st ch c + count_in_string c (snd (step st ch)) r
  end.

(** A string literal holding [a], a raw carriage return and [b]. *)
Definition c7_input : jstr := jsq "'a" ++ [ch_CR] ++ jsq "b'".

(** [s] has no comma followed by [\s] code units and a closing brace or
    bracket. *)
Definition no_comma_before_closer (s : jstr) : Prop :=
  forall p w c q, s = p ++ ch_comma :: w ++ c :: q ->
    Forall (fun x => is_js_ws x = true) w -> is_closer c = true -> False.

(** The scanner, started with flags [st], copies [s] unchanged and ends
    with flags [st']. *)
Definition transparent (st : scan_state) (s : jstr) (st' : scan_state) : Prop :=
  escape_go st s = s /\ final_state st s = st'.

(** [["a,]"]]: valid JSON whose string holds a comma before a bracket. *)
Definition c2_input : jstr := jsq "['a,]']".

(** A [JSON.parse] that knows one text, [{"a": 1}]. *)
Definition c1_parse (s : jstr) : option jvalue :=
  if list_eq_dec N.eq_dec s (jsq "{'a': 1}") then Some (JObj [("a", JNum 1)]) else None.

(** A Groq answer whose message content wraps [{"a": 1,}] in prose. *)
Definition c1_data : jvalue :=
  JObj [("choices", JArr [JObj [("message",
          JObj [("content", JStr (jsq "Here: {'a': 1,} done"))])]])].

Definition post_request (body : jvalue) : request := mk_request "POST" (Ok body).

(** A request with one user message. *)
Definition c8_request : request :=
  post_request (JObj [("messages", JArr [JObj [("role", JStr (str "user"));
                                               ("content", JStr (str "hi"))]])]).

(** A Gemini answer with two parts, ["a"] and ["b"]. *)
Definition c8_data : jvalue :=
  JObj [("candidates", JArr [JObj [("content", JObj [("parts",
          JArr [JObj [("text", JStr (str "a"))]; JObj [("text", JStr (str "b"))]])])]])].

(** No object inside [v] has an own [toString] key: converting [v], or any
    value inside it, to a string does not throw. *)
Fixpoint no_tostring_key (v : jvalue) : bool :=
  match v with
  | JArr xs => forallb no_tostring_key xs
  | JObj fs => negb (has_key "toString" fs) && forallb (fun '(_, x) => no_tostring_key x) fs
  | _ => true
  end.


(** The responses of the three handlers to one request. *)
Definition all_handlers (json_parse : jstr -> option jvalue) (req : request)
  (fetch_json : upstream) : list response :=
  [gemini_handler req fetch_json; gemini_v0_handler req fetch_json;
   groq_handler json_parse req fetch_json].

(** The three shapes a handler's response can have. *)
Definition response_shape (req : request) (r : response) : Prop :=
  (method req = "OPTIONS" /\ r = preflight_response)
  \/ (method req <> "OPTIONS"
      /\ (headers r = json_cors_headers
          \/ ((status r = 405)%Z /\ headers r = json_only_headers))).

(** [b] is [a] with some trailing-comma runs taken out: a comma, the [\s]
    code units after it and the closing brace or bracket after them become
    that closer alone; every other code unit is kept, in order. *)
Inductive drops_trailing_commas : jstr -> jstr -> Prop :=
| dtc_nil : drops_trailing_commas [] []
| dtc_keep c a b : drops_trailing_commas a b -> drops_trailing_commas (c :: a) (c :: b)
| dtc_drop w cl a b :
    Forall (fun x => is_js_ws x = true) w -> is_closer cl = true ->
    drops_trailing_commas a b -> drops_trailing_commas (ch_comma :: w ++ cl :: a) (cl :: b).

(** * Proofs *)

(** ** The scanner *)

Lemma escape_go_app st a b :
  escape_go st (a ++ b) = escape_go st a ++ escape_go (final_state st a) b.
Proof.
  revert st; induction a as [|ch a IH]; intros st; simpl; [reflexivity|].
  destruct (step st ch) as [o st'] eqn:E; simpl.
  rewrite IH, app_assoc; reflexivity.
Qed.

Lemma final_state_app st a b :
  final_state st (a ++ b) = final_state (final_state st a) b.
Proof.
  revert st; induction a as [|ch a IH]; intros st; simpl; auto.
Qed.

Lemma escape_go_cons st ch r :
  escape_go st (ch :: r) = fst (step st ch) ++ escape_go (snd (step st ch)) r.
Proof. simpl; destruct (step st ch); reflexivity. Qed.

Lemma step_in_str_LF : step in_str ch_LF = ([ch_backslash; ch_n], in_str).
Proof. reflexivity. Qed.

Lemma step_in_str_backslash : step in_str ch_backslash = ([ch_backslash], mk_scan true true).
Proof. reflexivity. Qed.

Lemma step_escaped c : step (mk_scan true true) c = ([c], in_str).
Proof. reflexivity. Qed.

(** Re-running the scanner on what one step emitted, from the same flags,
    emits the same text and reaches the same flags. *)
Lemma step_output_stable st ch :
  escape_go st (fst (step st ch)) = fst (step st ch)
  /\ final_state st (fst (step st ch)) = snd (step st ch).
Proof.
  destruct st as [[|] [|]]; unfold step; simpl;
    repeat match goal with
           | |- context [N.eqb ?a ?b] => destruct (N.eqb a b) eqn:?
           end; simpl; try (split; reflexivity);
    repeat match goal with H : N.eqb _ _ = _ |- _ => apply N.eqb_eq in H || apply N.eqb_neq in H end;
    subst; unfold step; simpl;
    repeat match goal with
           | |- context [N.eqb ?a ?b] =>
               let E := fresh in destruct (N.eqb a b) eqn:E;
               [apply N.eqb_eq in E; subst; try discriminate; try congruence | ]
           end; simpl; auto.
Qed.

Lemma escape_go_stable st s :
  escape_go st (escape_go st s) = escape_go st s.
Proof.
  revert st; induction s as [|ch r IH]; intros st; [reflexivity|].
  rewrite escape_go_cons, escape_go_app.
  destruct (step_output_stable st ch) as [H1 H2].
  rewrite H1, H2, IH; reflexivity.
Qed.

Lemma step_length st ch :
  List.length (fst (step st ch)) + in_string_hit st ch ch_CR
  = 1 + in_string_hit st ch ch_LF + in_string_hit st ch ch_TAB.
Proof.
  unfold in_string_hit.
  destruct st as [[|] [|]]; unfold step; simpl;
    repeat match goal with
           | |- context [N.eqb ?a ?b] =>
               let E := fresh in destruct (N.eqb a b) eqn:E;
               [apply N.eqb_eq in E; subst; try discriminate | ]
           end; simpl; try reflexivity;
    repeat match goal with
           | |- context [N.eqb ?a ?b] =>
               let E := fresh in destruct (N.eqb a b) eqn:E;
               [apply N.eqb_eq in E; subst; try discriminate | ]
           end; simpl; reflexivity.
Qed.

Lemma escape_go_length st s :
  List.length (escape_go st s) + count_in_string ch_CR st s
  = List.length s + count_in_string ch_LF st s + count_in_string ch_TAB st s.
Proof.
  revert st; induction s as [|ch r IH]; intros st; [reflexivity|].
  rewrite escape_go_cons, length_app; simpl count_in_string.
  specialize (IH (snd (step st ch))).
  pose proof (step_length st ch) as Hs.
  simpl List.length; lia.
Qed.

(** *** C4 *)

(** C4: inside a string, a backslash and the character after it are copied
    through and the scanner stays inside the string, whatever that
    character is (a double quote included); on
    [{"a": "he said \"hi\""}] the output is the input and [inString] holds
    from the opening quote of the value (7 units read) through the second
    escaped quote (21 units read). *)
Theorem escaped_char_stays_in_string (p rest : jstr) (c : char)
  (Hin : final_state scan_init p = mk_scan true false) :
  escapeNewlinesInsideStrings (p ++ ch_backslash :: c :: rest)
    = escapeNewlinesInsideStrings p ++ [ch_backslash; c] ++ escape_go (mk_scan true false) rest
  /\ final_state scan_init (p ++ [ch_backslash; c]) = mk_scan true false
  /\ escapeNewlinesInsideStrings c4_input = c4_input
  /\ (forall k, 7 <= k <= 21 -> inString (final_state scan_init (firstn k c4_input)) = true).
Proof.
  split; [|split; [|split]].
  - unfold escapeNewlinesInsideStrings; rewrite escape_go_app, Hin; reflexivity.
  - rewrite final_state_app, Hin; reflexivity.
  - reflexivity.
  - intros k Hk.
    assert (Hall : forallb (fun k => inString (final_state scan_init (firstn k c4_input)))
                           (seq 7 15) = true) by reflexivity.
    rewrite forallb_forall in Hall; apply Hall, in_seq; lia.
Qed.

Lemma escaped_char_stays_in_string_witness :
  final_state scan_init (jsq "{'a': 'he said ") = mk_scan true false
  /\ final_state scan_init (jsq "{'a': 'he said " ++ [ch_backslash; ch_quote]) = mk_scan true false.
Proof.
  split; [reflexivity|].
  destruct (escaped_char_stays_in_string (jsq "{'a': 'he said ") (jsq "hi\''}") ch_quote)
    as [_ [H _]].
  - reflexivity.
  - exact H.
Defined.

(** *** C7 *)

(** C7 fails: a raw carriage return inside a string is dropped, so the
    output of ["a<CR>b"] is one code unit shorter than the input. *)
Lemma escape_can_shorten :
  escapeNewlinesInsideStrings c7_input = jsq "'ab'"
  /\ List.length (escapeNewlinesInsideStrings c7_input) < List.length c7_input.
Proof. split; [reflexivity|]. simpl; lia. Qed.

(** C7, as the code does it: the output length is the input length, plus
    one for each raw line feed or tab read inside a string and not right
    after a backslash, minus one for each raw carriage return read there
    (it is dropped; a raw control character right after a backslash is
    copied unchanged); so the output is at least as long as the input when
    no raw carriage return is read there; and a character read outside a
    string is emitted unchanged, after the output of everything before it
    and before the output of everything after it. *)
Theorem escape_length_and_outside_chars (s : jstr) :
  List.length (escapeNewlinesInsideStrings s) + count_in_string ch_CR scan_init s
    = List.length s + count_in_string ch_LF scan_init s + count_in_string ch_TAB scan_init s
  /\ (count_in_string ch_CR scan_init s = 0 ->
        List.length s <= List.length (escapeNewlinesInsideStrings s))
  /\ (forall p ch q, s = p ++ ch :: q -> inString (final_state scan_init p) = false ->
        escapeNewlinesInsideStrings s
        = escapeNewlinesInsideStrings p ++ ch :: escape_go (snd (step (final_state scan_init p) ch)) q).
Proof.
  pose proof (escape_go_length scan_init s) as Hl.
  split; [exact Hl|split; [intros H0; unfold escapeNewlinesInsideStrings; lia|]].
  intros p ch q -> Hout.
  unfold escapeNewlinesInsideStrings; rewrite escape_go_app, escape_go_cons.
  destruct (final_state scan_init p) as [[|] e]; [discriminate|].
  unfold step at 1; simpl.
  destruct (N.eqb ch ch_quote); reflexivity.
Qed.

Lemma escape_length_and_outside_chars_witness :
  escapeNewlinesInsideStrings (jsq "{ 'a' : 1 }")
  = escapeNewlinesInsideStrings (jsq "{") ++ ch_space
      :: escape_go (snd (step (final_state scan_init (jsq "{")) ch_space)) (jsq "'a' : 1 }").
Proof.
  destruct (escape_length_and_outside_chars (jsq "{ 'a' : 1 }")) as [_ [_ H]].
  apply H; reflexivity.
Defined.

(** *** C10 *)

(** C10: the scanner is idempotent. *)
Theorem escape_idempotent (s : jstr) :
  escapeNewlinesInsideStrings (escapeNewlinesInsideStrings s) = escapeNewlinesInsideStrings s.
Proof. apply escape_go_stable. Qed.

(** ** The extractor *)

Lemma index_of_from_notin (c : char) (s : jstr) i :
  ~ In c s -> index_of_from N.eqb c s i = (-1)%Z.
Proof.
  revert i; induction s as [|x s IH]; intros i Hn; simpl; [reflexivity|].
  destruct (N.eqb_spec x c) as [->|_]; [exfalso; apply Hn; left; reflexivity|].
  apply IH; intros H; apply Hn; right; exact H.
Qed.

Lemma index_of_from_first (c : char) (p q : jstr) i :
  ~ In c p -> index_of_from N.eqb c (p ++ c :: q) i = (i + Z.of_nat (List.length p))%Z.
Proof.
  revert i; induction p as [|x p IH]; intros i Hn; simpl.
  - rewrite N.eqb_refl; lia.
  - destruct (N.eqb_spec x c) as [->|_]; [exfalso; apply Hn; left; reflexivity|].
    rewrite IH by (intros H; apply Hn; right; exact H); lia.
Qed.

Lemma last_index_of_from_notin (c : char) (s : jstr) i acc :
  ~ In c s -> last_index_of_from N.eqb c s i acc = acc.
Proof.
  revert i acc; induction s as [|x s IH]; intros i acc Hn; simpl; [reflexivity|].
  destruct (N.eqb_spec x c) as [->|_]; [exfalso; apply Hn; left; reflexivity|].
  apply IH; intros H; apply Hn; right; exact H.
Qed.

Lemma last_index_of_from_last (c : char) (p q : jstr) i acc :
  ~ In c q -> last_index_of_from N.eqb c (p ++ c :: q) i acc = (i + Z.of_nat (List.length p))%Z.
Proof.
  revert i acc; induction p as [|x p IH]; intros i acc Hn; simpl.
  - rewrite N.eqb_refl, last_index_of_from_notin by exact Hn; lia.
  - rewrite IH by exact Hn; lia.
Qed.

Lemma first_occurrence (c : char) (s : jstr) :
  In c s -> exists p q, s = p ++ c :: q /\ ~ In c p.
Proof.
  induction s as [|x s IH]; intros H; [destruct H|].
  destruct (N.eq_dec x c) as [->|Hne].
  - exists [], s; split; [reflexivity | intros []].
  - destruct H as [H|H]; [congruence|].
    destruct (IH H) as (p & q & -> & Hn).
    exists (x :: p), q; split; [reflexivity|].
    intros [H'|H']; [congruence | exact (Hn H')].
Qed.

Lemma last_occurrence (c : char) (s : jstr) :
  In c s -> exists p q, s = p ++ c :: q /\ ~ In c q.
Proof.
  induction s as [|x s IH]; intros H; [destruct H|].
  destruct (in_dec N.eq_dec c s) as [Hs|Hs].
  - destruct (IH Hs) as (p & q & -> & Hn).
    exists (x :: p), q; split; [reflexivity | exact Hn].
  - destruct H as [->|H]; [|contradiction].
    exists [], s; split; [reflexivity | exact Hs].
Qed.

Lemma indexOf_nonneg (c : char) s : In c s -> (0 <= indexOf N.eqb s c)%Z.
Proof.
  intros H; destruct (first_occurrence c s H) as (p & q & -> & Hn).
  unfold indexOf; rewrite index_of_from_first by exact Hn; lia.
Qed.

Lemma lastIndexOf_nonneg (c : char) s : In c s -> (0 <= lastIndexOf N.eqb s c)%Z.
Proof.
  intros H; destruct (last_occurrence c s H) as (p & q & -> & Hn).
  unfold lastIndexOf; rewrite last_index_of_from_last by exact Hn; lia.
Qed.

(** *** C5 *)

(** C5: [extractJsonObject t] is [null] exactly when [t] has no left brace,
    or no right brace, or its last right brace is at or before its first
    left brace; otherwise it is the inclusive span from the first left
    brace to the last right brace. *)
Theorem extract_spec (t : jstr) :
  (extractJsonObject t = None <->
     ~ In ch_lbrace t \/ ~ In ch_rbrace t \/
     (exists p q p' q', t = p ++ ch_lbrace :: q /\ ~ In ch_lbrace p /\
                        t = p' ++ ch_rbrace :: q' /\ ~ In ch_rbrace q' /\
                        List.length p' <= List.length p))
  /\ (forall p q p' q', t = p ++ ch_lbrace :: q -> ~ In ch_lbrace p ->
        t = p' ++ ch_rbrace :: q' -> ~ In ch_rbrace q' ->
        List.length p < List.length p' ->
        extractJsonObject t
        = Some (firstn (List.length p' - List.length p + 1) (skipn (List.length p) t))).
Proof.
  unfold extractJsonObject, extract_by.
  split; [split|].
  - intros H.
    destruct (in_dec N.eq_dec ch_lbrace t) as [Hl|Hl]; [|left; exact Hl].
    destruct (in_dec N.eq_dec ch_rbrace t) as [Hr|Hr]; [|right; left; exact Hr].
    right; right.
    destruct (first_occurrence _ _ Hl) as (p & q & Ep & Hp).
    destruct (last_occurrence _ _ Hr) as (p' & q' & Ep' & Hq').
    exists p, q, p', q'; repeat split; try assumption.
    assert (E1 : indexOf N.eqb t ch_lbrace = Z.of_nat (List.length p))
      by (unfold indexOf; rewrite Ep, (index_of_from_first _ _ _ _ Hp); lia).
    assert (E2 : lastIndexOf N.eqb t ch_rbrace = Z.of_nat (List.length p'))
      by (unfold lastIndexOf; rewrite Ep', (last_index_of_from_last _ _ _ _ _ Hq'); lia).
    rewrite E1, E2 in H.
    destruct (Z.eqb_spec (Z.of_nat (List.length p)) (-1)); [lia|].
    destruct (Z.eqb_spec (Z.of_nat (List.length p')) (-1)); [lia|].
    destruct (Z.leb_spec (Z.of_nat (List.length p')) (Z.of_nat (List.length p))); [lia|].
    discriminate.
  - intros [Hl|[Hr|(p & q & p' & q' & Ep & Hp & Ep' & Hq' & Hle)]].
    + unfold indexOf; rewrite index_of_from_notin by exact Hl; reflexivity.
    + unfold lastIndexOf; rewrite last_index_of_from_notin by exact Hr.
      rewrite Z.eqb_refl, Bool.orb_true_r; reflexivity.
    + assert (E1 : indexOf N.eqb t ch_lbrace = Z.of_nat (List.length p))
        by (unfold indexOf; rewrite Ep, (index_of_from_first _ _ _ _ Hp); lia).
      assert (E2 : lastIndexOf N.eqb t ch_rbrace = Z.of_nat (List.length p'))
        by (unfold lastIndexOf; rewrite Ep', (last_index_of_from_last _ _ _ _ _ Hq'); lia).
      rewrite E1, E2.
      destruct (Z.leb_spec (Z.of_nat (List.length p')) (Z.of_nat (List.length p))); [|lia].
      rewrite !Bool.orb_true_r; reflexivity.
  - intros p q p' q' Ep Hp Ep' Hq' Hlt.
    assert (E1 : indexOf N.eqb t ch_lbrace = Z.of_nat (List.length p))
      by (unfold indexOf; rewrite Ep, (index_of_from_first _ _ _ _ Hp); lia).
    assert (E2 : lastIndexOf N.eqb t ch_rbrace = Z.of_nat (List.length p'))
      by (unfold lastIndexOf; rewrite Ep', (last_index_of_from_last _ _ _ _ _ Hq'); lia).
    rewrite E1, E2.
    destruct (Z.eqb_spec (Z.of_nat (List.length p)) (-1)); [lia|].
    destruct (Z.eqb_spec (Z.of_nat (List.length p')) (-1)); [lia|].
    destruct (Z.leb_spec (Z.of_nat (List.length p')) (Z.of_nat (List.length p))); [lia|].
    simpl; unfold slice; rewrite Nat2Z.id; f_equal; f_equal; lia.
Qed.

Lemma extract_spec_witness :
  extractJsonObject (str "x{a}y") = Some (str "{a}").
Proof.
  destruct (extract_spec (str "x{a}y")) as [_ H].
  apply (H (str "x") (str "a}y") (str "x{a") (str "y"));
    try reflexivity; try (simpl; lia);
    simpl; intros C; repeat (destruct C as [C|C]; [discriminate C|]); exact C.
Defined.

(** ** The sanitizer *)

Lemma ws_then_closer_length (s rest : jstr) cl :
  ws_then_closer s = Some (cl, rest) -> List.length rest < List.length s.
Proof.
  induction s as [|c r IH]; simpl; [discriminate|].
  destruct (is_js_ws c); [intros H; specialize (IH H); lia|].
  destruct (is_closer c); [intros H; injection H as <- <-; lia | discriminate].
Qed.

Lemma ws_then_closer_some (s rest : jstr) cl :
  ws_then_closer s = Some (cl, rest) ->
  exists w, s = w ++ cl :: rest /\ Forall (fun x => is_js_ws x = true) w /\ is_closer cl = true.
Proof.
  induction s as [|c r IH]; simpl; [discriminate|].
  destruct (is_js_ws c) eqn:Ew.
  - intros H; destruct (IH H) as (w & -> & Hw & Hc).
    exists (c :: w); split; [reflexivity|]; split; [constructor; assumption | exact Hc].
  - destruct (is_closer c) eqn:Ec; [|discriminate].
    intros H; injection H as <- <-.
    exists []; split; [reflexivity|]; split; [constructor | exact Ec].
Qed.

Lemma ws_then_closer_ws_closer (w q : jstr) c :
  Forall (fun x => is_js_ws x = true) w -> is_closer c = true ->
  ws_then_closer (w ++ c :: q) = Some (c, q).
Proof.
  intros Hw Hc; induction Hw as [|x w Hx Hw IH]; simpl.
  - assert (Hn : is_js_ws c = false).
    { unfold is_closer in Hc; apply Bool.orb_true_iff in Hc.
      destruct Hc as [Hc|Hc]; apply N.eqb_eq in Hc; subst; reflexivity. }
    rewrite Hn, Hc; reflexivity.
  - rewrite Hx; exact IH.
Qed.

Lemma ws_then_closer_app_comma (x y : jstr) :
  ws_then_closer (x ++ ch_comma :: y)
  = match ws_then_closer x with
    | Some (cl, rest) => Some (cl, rest ++ ch_comma :: y)
    | None => None
    end.
Proof.
  induction x as [|c r IH]; simpl; [reflexivity|].
  destruct (is_js_ws c); [exact IH|].
  destruct (is_closer c); reflexivity.
Qed.

Lemma strip_go_fuel (f1 f2 : nat) (s : jstr) :
  List.length s <= f1 -> List.length s <= f2 -> strip_go f1 s = strip_go f2 s.
Proof.
  revert f2 s; induction f1 as [|f1 IH]; intros f2 s H1 H2.
  - destruct s; [destruct f2; reflexivity | simpl in H1; lia].
  - destruct f2 as [|f2]; [destruct s; [reflexivity | simpl in H2; lia]|].
    destruct s as [|c r]; [reflexivity|]; simpl in H1, H2 |- *.
    destruct (N.eqb c ch_comma); [|f_equal; apply IH; lia].
    destruct (ws_then_closer r) as [[cl rest]|] eqn:E; [|f_equal; apply IH; lia].
    apply ws_then_closer_length in E; f_equal; apply IH; lia.
Qed.

Lemma strip_cons (c : char) (r : jstr) :
  strip_trailing_commas (c :: r)
  = if N.eqb c ch_comma then
      match ws_then_closer r with
      | Some (cl, rest) => cl :: strip_trailing_commas rest
      | None => c :: strip_trailing_commas r
      end
    else c :: strip_trailing_commas r.
Proof.
  unfold strip_trailing_commas at 1; simpl.
  destruct (N.eqb c ch_comma).
  - destruct (ws_then_closer r) as [[cl rest]|] eqn:E.
    + apply ws_then_closer_length in E; f_equal; apply strip_go_fuel; lia.
    + reflexivity.
  - reflexivity.
Qed.

Lemma strip_nil : strip_trailing_commas [] = [].
Proof. reflexivity. Qed.

Lemma strip_app_comma (x y : jstr) :
  strip_trailing_commas (x ++ ch_comma :: y)
  = strip_trailing_commas x ++ strip_trailing_commas (ch_comma :: y).
Proof.
  remember (List.length x) as n eqn:En.
  revert x En; induction n as [n IH] using (well_founded_induction lt_wf); intros x En.
  destruct x as [|c r]; [reflexivity|].
  simpl app; rewrite (strip_cons c (r ++ ch_comma :: y)), (strip_cons c r),
    ws_then_closer_app_comma.
  simpl in En.
  destruct (N.eqb c ch_comma).
  - destruct (ws_then_closer r) as [[cl rest]|] eqn:E.
    + apply ws_then_closer_length in E.
      rewrite (IH (List.length rest)) by (lia || reflexivity); reflexivity.
    + rewrite (IH (List.length r)) by (lia || reflexivity); reflexivity.
  - rewrite (IH (List.length r)) by (lia || reflexivity); reflexivity.
Qed.

Lemma strip_comma_closer (w q : jstr) c :
  Forall (fun x => is_js_ws x = true) w -> is_closer c = true ->
  strip_trailing_commas (ch_comma :: w ++ c :: q) = c :: strip_trailing_commas q.
Proof.
  intros Hw Hc; rewrite strip_cons, (ws_then_closer_ws_closer w q c Hw Hc); reflexivity.
Qed.

Lemma strip_identity (s : jstr) :
  no_comma_before_closer s -> strip_trailing_commas s = s.
Proof.
  remember (List.length s) as n eqn:En.
  revert s En; induction n as [n IH] using (well_founded_induction lt_wf); intros s En Hs.
  destruct s as [|c r]; [reflexivity|].
  assert (Hr : no_comma_before_closer r).
  { intros p w cl q Er Hw Hcl; apply (Hs (c :: p) w cl q); [rewrite Er | |]; auto. }
  simpl in En; rewrite strip_cons.
  destruct (N.eqb c ch_comma) eqn:Ec.
  - apply N.eqb_eq in Ec; subst c.
    destruct (ws_then_closer r) as [[cl rest]|] eqn:E.
    + destruct (ws_then_closer_some _ _ _ E) as (w & -> & Hw & Hcl).
      exfalso; apply (Hs [] w cl rest); auto.
    + f_equal; apply (IH (List.length r)); auto; lia.
  - f_equal; apply (IH (List.length r)); auto; lia.
Qed.

Lemma replace_app (x : char) (a b : jstr) :
  replace_char_by_bs_n x (a ++ b) = replace_char_by_bs_n x a ++ replace_char_by_bs_n x b.
Proof. unfold replace_char_by_bs_n; apply flat_map_app. Qed.

Lemma replace_identity (x : char) (s : jstr) :
  ~ In x s -> replace_char_by_bs_n x s = s.
Proof.
  induction s as [|c r IH]; intros Hn; [reflexivity|]; simpl.
  destruct (N.eqb_spec c x) as [->|_]; [exfalso; apply Hn; left; reflexivity|].
  simpl; f_equal; apply IH; intros H; apply Hn; right; exact H.
Qed.

(** *** C6 *)

(** C6 fails: U+2028 belongs to [\s], but the sanitizer first rewrites it
    into backslash, [n]; so in [[1,<U+2028>]] the comma, followed only by
    whitespace and a closing bracket, is kept. *)
Lemma sanitize_keeps_comma_before_line_separator :
  is_js_ws ch_LS = true
  /\ sanitizeCommonBreakers (str "[1," ++ [ch_LS] ++ str "]")
     = str "[1," ++ [ch_backslash; ch_n] ++ str "]"
  /\ ~ (forall p w q c, Forall (fun x => is_js_ws x = true) w -> is_closer c = true ->
          sanitizeCommonBreakers (p ++ ch_comma :: w ++ c :: q)
          = sanitizeCommonBreakers p ++ c :: sanitizeCommonBreakers q).
Proof.
  split; [reflexivity|]; split; [reflexivity|].
  intros H.
  assert (Hw : Forall (fun x => is_js_ws x = true) [ch_LS]) by (repeat constructor).
  specialize (H (str "[1") [ch_LS] [] ch_rbrack Hw eq_refl).
  vm_compute in H; discriminate H.
Qed.

(** C6, as the code does it: a comma followed only by [\s] code units other
    than U+2028 and U+2029, then by a closing brace or bracket, is removed
    (with the whitespace after it) and the closer is kept; the text before
    and after is sanitized on its own.  [{"a": 1,}] becomes [{"a": 1}]. *)
Theorem sanitize_removes_trailing_comma (p w q : jstr) (c : char)
  (Hw : Forall (fun x => is_js_ws x = true /\ x <> ch_LS /\ x <> ch_PS) w)
  (Hc : is_closer c = true) :
  sanitizeCommonBreakers (p ++ ch_comma :: w ++ c :: q)
  = sanitizeCommonBreakers p ++ c :: sanitizeCommonBreakers q
  /\ sanitizeCommonBreakers (jsq "{'a': 1,}") = jsq "{'a': 1}".
Proof.
  split; [|reflexivity].
  assert (HcLS : c <> ch_LS /\ c <> ch_PS).
  { unfold is_closer in Hc; apply Bool.orb_true_iff in Hc.
    destruct Hc as [Hc|Hc]; apply N.eqb_eq in Hc; subst; split; discriminate. }
  assert (Hmid : forall x, x = ch_LS \/ x = ch_PS ->
            ~ In x (ch_comma :: w ++ [c])).
  { intros x Hx Hin; simpl in Hin; destruct Hin as [Hin|Hin];
      [destruct Hx; subst; discriminate|].
    apply in_app_or in Hin; destruct Hin as [Hin|[Hin|[]]].
    - rewrite Forall_forall in Hw; destruct (Hw x Hin) as (_ & H1 & H2).
      destruct Hx; contradiction.
    - subst; destruct Hx as [->| ->]; tauto. }
  unfold sanitizeCommonBreakers.
  replace (p ++ ch_comma :: w ++ c :: q) with (p ++ (ch_comma :: w ++ [c]) ++ q)
    by (simpl; rewrite <- app_assoc; reflexivity).
  rewrite !replace_app.
  rewrite (replace_identity ch_LS (ch_comma :: w ++ [c])) by (apply Hmid; left; reflexivity).
  rewrite (replace_identity ch_PS (ch_comma :: w ++ [c])) by (apply Hmid; right; reflexivity).
  simpl app; rewrite <- app_assoc; simpl app.
  rewrite strip_app_comma, strip_comma_closer; [reflexivity | | exact Hc].
  eapply Forall_impl; [|exact Hw]; intros x [Hx _]; exact Hx.
Qed.

Lemma sanitize_removes_trailing_comma_witness :
  sanitizeCommonBreakers (jsq "{'a': 1" ++ ch_comma :: [ch_space] ++ ch_rbrace :: [])
  = sanitizeCommonBreakers (jsq "{'a': 1") ++ ch_rbrace :: sanitizeCommonBreakers [].
Proof.
  destruct (sanitize_removes_trailing_comma (jsq "{'a': 1") [ch_space] [] ch_rbrace)
    as [H _].
  - constructor; [split; [reflexivity | split; discriminate] | constructor].
  - reflexivity.
  - exact H.
Defined.

(** ** Valid JSON passes the scanner unchanged *)

Lemma transparent_app st a st1 b st2 :
  transparent st a st1 -> transparent st1 b st2 -> transparent st (a ++ b) st2.
Proof.
  intros [Ea Fa] [Eb Fb]; split.
  - rewrite escape_go_app, Ea, Fa, Eb; reflexivity.
  - rewrite final_state_app, Fa, Fb; reflexivity.
Qed.

Lemma transparent_out_app a b :
  transparent scan_init a scan_init -> transparent scan_init b scan_init ->
  transparent scan_init (a ++ b) scan_init.
Proof. apply transparent_app. Qed.

Lemma transparent_noquote (s : jstr) :
  Forall (fun c => c <> ch_quote) s -> transparent scan_init s scan_init.
Proof.
  induction 1 as [|c s Hc Hs IH]; [split; reflexivity|].
  change (c :: s) with ([c] ++ s); apply transparent_app with scan_init; [|exact IH].
  unfold transparent; simpl; unfold step; simpl.
  destruct (N.eqb_spec c ch_quote); [contradiction | split; reflexivity].
Qed.

Lemma json_ws_noquote (w : jstr) : json_ws w -> Forall (fun c => c <> ch_quote) w.
Proof.
  apply Forall_impl; intros c Hc Heq; subst; discriminate.
Qed.

Lemma unescaped_step (c : char) : is_unescaped c = true -> step in_str c = ([c], in_str).
Proof.
  unfold is_unescaped; intros H.
  apply andb_prop in H as [H H92]; apply andb_prop in H as [H H34];
    apply andb_prop in H as [H32 _].
  apply N.leb_le in H32; apply negb_true_iff in H34, H92.
  unfold step; simpl; rewrite H92, H34.
  destruct (N.eqb_spec c ch_LF); [unfold ch_LF in *; lia|].
  destruct (N.eqb_spec c ch_CR); [unfold ch_CR in *; lia|].
  destruct (N.eqb_spec c ch_TAB); [unfold ch_TAB in *; lia|].
  reflexivity.
Qed.

Lemma hex_unescaped (c : char) : is_hex c = true -> is_unescaped c = true.
Proof.
  unfold is_hex, is_digit, is_unescaped; intros H.
  repeat rewrite Bool.orb_true_iff in H; repeat rewrite Bool.andb_true_iff in H.
  rewrite !N.leb_le in H.
  assert (H1 : (32 <= c <= 65535)%N) by lia.
  assert (H2 : c <> ch_quote) by (unfold ch_quote; lia).
  assert (H3 : c <> ch_backslash) by (unfold ch_backslash; lia).
  destruct H1 as [H1a H1b].
  apply N.leb_le in H1a, H1b; rewrite H1a, H1b.
  apply N.eqb_neq in H2, H3; rewrite H2, H3; reflexivity.
Qed.

Lemma transparent_unescaped (c : char) :
  is_unescaped c = true -> transparent in_str [c] in_str.
Proof.
  intros H; unfold transparent; simpl; rewrite unescaped_step by exact H; split; reflexivity.
Qed.

Lemma str_char_transparent (x : jstr) : str_char x -> transparent in_str x in_str.
Proof.
  intros [c Hc | c Hc | h1 h2 h3 h4 H1 H2 H3 H4].
  - apply transparent_unescaped, Hc.
  - split; reflexivity.
  - change [ch_backslash; 117%N; h1; h2; h3; h4]
      with ([ch_backslash; 117%N] ++ [h1] ++ [h2] ++ [h3] ++ [h4]).
    apply transparent_app with in_str; [split; reflexivity|].
    repeat (apply transparent_app with in_str; [apply transparent_unescaped, hex_unescaped; assumption|]).
    apply transparent_unescaped, hex_unescaped; assumption.
Qed.

Lemma str_body_transparent (b : jstr) : str_body b -> transparent in_str b in_str.
Proof.
  induction 1 as [|x b Hx Hb IH]; [split; reflexivity|].
  apply transparent_app with in_str; [apply str_char_transparent, Hx | exact IH].
Qed.

Lemma json_string_transparent (s : jstr) : json_string s -> transparent scan_init s scan_init.
Proof.
  intros (b & Hb & ->).
  apply transparent_app with in_str; [split; reflexivity|].
  apply transparent_app with in_str; [apply str_body_transparent, Hb | split; reflexivity].
Qed.

Lemma digits_noquote (d : jstr) :
  Forall (fun c => is_digit c = true) d -> Forall (fun c => c <> ch_quote) d.
Proof.
  apply Forall_impl; intros c Hc ->; discriminate.
Qed.

Lemma json_number_noquote (s : jstr) : json_number s -> Forall (fun c => c <> ch_quote) s.
Proof.
  intros (m & i & f & e & Hm & Hi & Hf & He & ->).
  rewrite !Forall_app; repeat split.
  - destruct Hm as [->| ->]; repeat constructor; discriminate.
  - destruct Hi as [|d ds Hd Hds]; [repeat constructor; discriminate|].
    constructor; [|apply digits_noquote, Hds].
    intros ->; discriminate.
  - destruct Hf as [->|(ds & [_ Hds] & ->)]; [constructor|].
    constructor; [discriminate | apply digits_noquote, Hds].
  - destruct He as [->|(e0 & sg & ds & He0 & Hsg & [_ Hds] & ->)]; [constructor|].
    constructor; [destruct He0 as [->| ->]; discriminate|].
    apply Forall_app; split; [|apply digits_noquote, Hds].
    destruct Hsg as [->|[->| ->]]; repeat constructor; discriminate.
Qed.

Ltac transparent_pieces :=
  repeat match goal with
  | |- transparent scan_init (_ ++ _) scan_init => apply transparent_out_app
  end;
  first
    [ assumption
    | apply transparent_noquote, json_ws_noquote; assumption
    | apply json_string_transparent; assumption
    | apply transparent_noquote; repeat constructor; discriminate ].

Lemma json_value_transparent (s : jstr) :
  json_value s -> transparent scan_init s scan_init.
Proof.
  pose (P := fun s : jstr => transparent scan_init s scan_init).
  apply (json_value_mind P P P P); unfold P; clear P; intros;
    try (split; reflexivity).
  1: apply json_string_transparent; assumption.
  1: apply transparent_noquote, json_number_noquote; assumption.
  all: transparent_pieces.
Qed.

Lemma json_text_transparent (s : jstr) :
  json_text s -> escapeNewlinesInsideStrings s = s.
Proof.
  intros (w1 & v & w2 & H1 & Hv & H2 & ->).
  apply json_value_transparent in Hv.
  enough (H : transparent scan_init (w1 ++ v ++ w2) scan_init) by (destruct H; assumption).
  transparent_pieces.
Qed.

(** ** Concrete JSON texts *)

Lemma str_body_app (a b : jstr) : str_body a -> str_body b -> str_body (a ++ b).
Proof.
  induction 1 as [|x a Hx Ha IH]; intros Hb; [exact Hb|].
  rewrite <- app_assoc; constructor; auto.
Qed.

Lemma str_body_plain (l : jstr) : forallb is_unescaped l = true -> str_body l.
Proof.
  induction l as [|c l IH]; simpl; intros H; [constructor|].
  apply andb_prop in H as [H1 H2].
  change (c :: l) with ([c] ++ l); constructor; [constructor; exact H1 | auto].
Qed.

Lemma json_string_plain (l : jstr) :
  forallb is_unescaped l = true -> json_string ([ch_quote] ++ l ++ [ch_quote]).
Proof. intros H; exists l; split; [apply str_body_plain, H | reflexivity]. Qed.

Lemma no_comma_no_pattern (s : jstr) : ~ In ch_comma s -> no_comma_before_closer s.
Proof.
  intros Hn p w c q -> _ _; apply Hn, in_or_app; right; left; reflexivity.
Qed.

Ltac not_in_list :=
  let H := fresh in
  intros H; simpl in H; repeat (destruct H as [H|H]; [discriminate H|]); exact H.

Lemma c2_input_json : json_text c2_input.
Proof.
  exists [], ([ch_lbrack] ++ ([] ++ ([ch_quote] ++ str "a,]" ++ [ch_quote]) ++ []) ++ [ch_rbrack]), [].
  split; [constructor|]; split; [|split; [constructor | reflexivity]].
  apply jv_array, jes_one; try (repeat constructor; fail).
  apply jv_string, json_string_plain; reflexivity.
Qed.

Lemma c3_output_json : json_text c3_output.
Proof.
  exists [], ([ch_lbrace]
              ++ ([] ++ ([ch_quote] ++ str "a" ++ [ch_quote]) ++ [] ++ [ch_colon] ++ [ch_space]
                  ++ ([ch_quote] ++ (str "line1" ++ [ch_backslash; ch_n] ++ str "line2")
                      ++ [ch_quote]) ++ [])
              ++ [ch_rbrace]), [].
  split; [constructor|]; split; [|split; [constructor | reflexivity]].
  apply jv_object, jms_one, jmem; try (repeat constructor; fail).
  - apply json_string_plain; reflexivity.
  - apply jv_string; eexists; split; [|reflexivity].
    apply str_body_app; [apply str_body_plain; reflexivity|].
    apply (str_body_app [ch_backslash; ch_n]); [|apply str_body_plain; reflexivity].
    change [ch_backslash; ch_n] with ([ch_backslash; ch_n] ++ []).
    constructor; [constructor; reflexivity | constructor].
Qed.

(** *** C2 *)

(** C2 fails: [["a,]"]] is valid JSON, but the sanitizer removes the comma
    inside its string, so the text comes back as [["a]"]], another JSON
    value. *)
Lemma sanitize_changes_valid_json :
  json_text c2_input
  /\ sanitizeCommonBreakers c2_input = jsq "['a]']"
  /\ escapeNewlinesInsideStrings (sanitizeCommonBreakers c2_input) <> c2_input.
Proof.
  split; [exact c2_input_json|]; split; [reflexivity|].
  vm_compute; discriminate.
Qed.

(** C2, as the code does it: a valid JSON text with no U+2028, no U+2029
    and no comma followed by [\s] code units and a closing brace or bracket
    (in valid JSON such a comma can only sit inside a string literal) comes
    back unchanged from the sanitizer and the scanner, so strict parsing
    succeeds and yields the value of the original text. *)
Theorem sanitize_escape_identity_on_json (s : jstr)
  (Hjson : json_text s) (Hls : ~ In ch_LS s) (Hps : ~ In ch_PS s)
  (Hcomma : no_comma_before_closer s) :
  escapeNewlinesInsideStrings (sanitizeCommonBreakers s) = s
  /\ json_text (escapeNewlinesInsideStrings (sanitizeCommonBreakers s)).
Proof.
  assert (E : escapeNewlinesInsideStrings (sanitizeCommonBreakers s) = s).
  { unfold sanitizeCommonBreakers.
    rewrite (replace_identity ch_LS s Hls), (replace_identity ch_PS s Hps),
      (strip_identity s Hcomma).
    apply json_text_transparent, Hjson. }
  rewrite E; split; [reflexivity | exact Hjson].
Qed.

Lemma sanitize_escape_identity_on_json_witness :
  escapeNewlinesInsideStrings (sanitizeCommonBreakers (jsq "{'a': true}")) = jsq "{'a': true}".
Proof.
  apply (sanitize_escape_identity_on_json (jsq "{'a': true}")).
  - exists [], ([ch_lbrace]
                ++ ([] ++ ([ch_quote] ++ str "a" ++ [ch_quote]) ++ [] ++ [ch_colon] ++ [ch_space]
                    ++ str "true" ++ [])
                ++ [ch_rbrace]), [].
    split; [constructor|]; split; [|split; [constructor | reflexivity]].
    apply jv_object, jms_one, jmem; try (repeat constructor; fail).
    apply json_string_plain; reflexivity.
  - not_in_list.
  - not_in_list.
  - apply no_comma_no_pattern; not_in_list.
Defined.
(** *** C3 *)

(** C3: inside a string and not after a backslash, a raw line feed is
    emitted as backslash, [n]; on [{"a": "line1<LF>line2"}] the scanner gives
    [{"a": "line1\nline2"}], which is valid JSON. *)
Theorem escape_raw_newline_in_string (p rest : jstr)
  (Hin : final_state scan_init p = mk_scan true false) :
  escapeNewlinesInsideStrings (p ++ ch_LF :: rest)
  = escapeNewlinesInsideStrings p ++ [ch_backslash; ch_n] ++ escape_go (mk_scan true false) rest
  /\ escapeNewlinesInsideStrings c3_input = c3_output
  /\ json_text c3_output.
Proof.
  split; [|split; [reflexivity | exact c3_output_json]].
  unfold escapeNewlinesInsideStrings; rewrite escape_go_app, Hin; reflexivity.
Qed.

Lemma escape_raw_newline_in_string_witness :
  final_state scan_init (jsq "{'a': 'line1") = mk_scan true false
  /\ escapeNewlinesInsideStrings (jsq "{'a': 'line1" ++ ch_LF :: jsq "line2'}")
     = escapeNewlinesInsideStrings (jsq "{'a': 'line1") ++ [ch_backslash; ch_n]
       ++ escape_go (mk_scan true false) (jsq "line2'}").
Proof.
  split; [reflexivity|].
  destruct (escape_raw_newline_in_string (jsq "{'a': 'line1") (jsq "line2'}")) as [H _].
  - reflexivity.
  - exact H.
Defined.


(** ** The handlers *)

Lemma bind_ok {T U : Type} (m : result T) (f : T -> result U) (r : U) :
  bind m f = Ok r -> exists a, m = Ok a /\ f a = Ok r.
Proof. destruct m as [a|e]; simpl; [intros H; exists a; auto | discriminate]. Qed.

Ltac invert_binds :=
  repeat match goal with
  | H : bind _ _ = Ok _ |- _ =>
      let a := fresh "a" in let Ha := fresh "Ha" in let H' := fresh in
      apply bind_ok in H; destruct H as (a & Ha & H'); rename H' into H
  end.

Ltac case_truthy H :=
  match type of H with
  | context [if truthy ?x then _ else _] => destruct (truthy x)
  end.

Lemma skipn_app_length {T : Type} (p q : list T) : skipn (List.length p) (p ++ q) = q.
Proof. induction p; simpl; auto. Qed.

Lemma extract_some_starts_with_brace (t c : jstr) :
  extractJsonObject t = Some c -> exists c', c = ch_lbrace :: c'.
Proof.
  unfold extractJsonObject, extract_by.
  destruct (in_dec N.eq_dec ch_lbrace t) as [Hl|Hl];
    [|unfold indexOf; rewrite index_of_from_notin by exact Hl; discriminate].
  destruct (first_occurrence _ _ Hl) as (p & q & Ep & Hp).
  assert (E1 : indexOf N.eqb t ch_lbrace = Z.of_nat (List.length p))
    by (unfold indexOf; rewrite Ep, (index_of_from_first _ _ _ _ Hp); lia).
  rewrite E1; set (e := lastIndexOf N.eqb t ch_rbrace).
  destruct (Z.eqb_spec (Z.of_nat (List.length p)) (-1)) as [Hs|Hs]; [lia|].
  destruct (Z.eqb_spec e (-1)) as [He|He]; [discriminate|].
  destruct (Z.leb_spec e (Z.of_nat (List.length p))) as [Hle|Hlt]; [discriminate|].
  simpl; intros Hc; injection Hc as <-.
  unfold slice; rewrite Nat2Z.id, Ep, skipn_app_length.
  destruct (Z.to_nat (e + 1 - Z.of_nat (List.length p))) as [|k] eqn:Ek; [lia|].
  exists (firstn k q); reflexivity.
Qed.

Lemma get_or_else_object (b : jvalue) (k : string) :
  exists v, get (or_else b (JObj [])) k = Ok v.
Proof. destruct b as [| |[|]|n|[|c s]|xs|fs]; unfold or_else; simpl; eauto;
  destruct (Z.eqb n 0); simpl; eauto. Qed.

Lemma groq_reply_headers (json_parse : jstr -> option jvalue) (raw : jvalue) (r : response) :
  groq_reply json_parse raw = Ok r -> headers r = json_cors_headers.
Proof.
  unfold groq_reply; intros H; invert_binds.
  destruct (truthy a); [|injection H as <-; reflexivity].
  invert_binds; destruct (json_parse _); injection H as <-; reflexivity.
Qed.

Lemma groq_try_headers json_parse req fetch_json (r : response) :
  groq_try json_parse req fetch_json = Ok r -> headers r = json_cors_headers.
Proof.
  unfold groq_try; intros H; invert_binds.
  destruct (truthy (oget _ "error")); [injection H as <-; reflexivity|].
  eapply groq_reply_headers; exact H.
Qed.

Lemma gemini_try_headers req fetch_json (r : response) :
  gemini_try req fetch_json = Ok r -> headers r = json_cors_headers.
Proof.
  unfold gemini_try; intros H; invert_binds.
  case_truthy H; [injection H as <-; reflexivity|].
  invert_binds; injection H as <-; reflexivity.
Qed.

Lemma gemini_v0_try_headers req fetch_json (r : response) :
  gemini_v0_try req fetch_json = Ok r -> headers r = json_cors_headers.
Proof.
  unfold gemini_v0_try; intros H; invert_binds.
  case_truthy H; injection H as <-; reflexivity.
Qed.

(** *** C1 *)

(** C1: once the Groq upstream has answered without an error and its
    message content [raw] is a string, the handler does not throw: it
    answers 200 either with the value [JSON.parse] gave for the repaired
    candidate, or with the fallback envelope around [raw]; the fallback is
    taken exactly when there is no candidate or [JSON.parse] throws.  This
    holds for every behaviour of [JSON.parse]. *)
Theorem groq_repair_never_throws (json_parse : jstr -> option jvalue) (req : request)
  (fetch_json : upstream) (body data : jvalue) (raw : jstr)
  (Hpost : method req = "POST") (Hbody : json_body req = Ok body)
  (Hfetch : forall payload, fetch_json payload = Ok data)
  (Herr : truthy (oget data "error") = false)
  (Hraw : groq_raw_text data = JStr raw) :
  (exists c v, extractJsonObject raw = Some c
     /\ json_parse (escapeNewlinesInsideStrings (sanitizeCommonBreakers c)) = Some v
     /\ groq_handler json_parse req fetch_json = mk_response 200 json_cors_headers (Some v))
  \/ ((extractJsonObject raw = None
       \/ exists c, extractJsonObject raw = Some c
          /\ json_parse (escapeNewlinesInsideStrings (sanitizeCommonBreakers c)) = None)
      /\ groq_handler json_parse req fetch_json
         = mk_response 200 json_cors_headers (Some (text_envelope (JStr raw)))).
Proof.
  unfold groq_handler; rewrite Hpost; simpl String.eqb; cbv iota beta.
  unfold groq_try; rewrite Hbody; simpl bind.
  destruct (get_or_else_object body "system") as [sys Hsys]; rewrite Hsys; simpl bind.
  destruct (get_or_else_object body "messages") as [msgs Hmsgs]; rewrite Hmsgs; simpl bind.
  rewrite Hfetch; simpl bind; rewrite Herr, Hraw.
  unfold groq_reply, extractJsonObject_js; simpl bind.
  destruct (extractJsonObject raw) as [c|] eqn:E.
  - destruct (extract_some_starts_with_brace _ _ E) as [c' ->]; simpl.
    destruct (json_parse (escapeNewlinesInsideStrings (sanitizeCommonBreakers (ch_lbrace :: c'))))
      as [v|] eqn:P.
    + left; exists (ch_lbrace :: c'), v; auto.
    + right; split; [right; exists (ch_lbrace :: c'); auto | reflexivity].
  - right; split; [left; reflexivity | reflexivity].
Qed.

Lemma groq_repair_never_throws_witness :
  groq_handler c1_parse (post_request (JObj [])) (fun _ => Ok c1_data)
  = mk_response 200 json_cors_headers (Some (JObj [("a", JNum 1)])).
Proof.
  destruct (groq_repair_never_throws c1_parse (post_request (JObj [])) (fun _ => Ok c1_data)
              (JObj []) c1_data (jsq "Here: {'a': 1,} done")
              eq_refl eq_refl (fun _ => eq_refl) eq_refl eq_refl)
    as [(c & v & Hc & Hv & Hr) | ([Hn | (c & Hc & Hn)] & _)].
  - rewrite Hr; vm_compute in Hc; injection Hc as <-.
    vm_compute in Hv; injection Hv as <-; reflexivity.
  - vm_compute in Hn; discriminate Hn.
  - vm_compute in Hc; injection Hc as <-; vm_compute in Hn; discriminate Hn.
Defined.

(** *** C8 *)


Lemma find_user_objects (ms : list (list (string * jvalue))) :
  exists m, find_user_go (map JObj ms) = Ok m.
Proof.
  induction ms as [|fs ms [m IH]]; simpl; [eauto|].
  destruct (is_str (lookup_field "role" fs) (str "user")); eauto.
Qed.

Lemma jvalue_ind' (P : jvalue -> Prop) (HU : P JUndef) (HN : P JNull)
  (HB : forall b, P (JBool b)) (HNum : forall n, P (JNum n)) (HS : forall s, P (JStr s))
  (HA : forall xs, Forall P xs -> P (JArr xs))
  (HO : forall fs, Forall (fun kv => P (snd kv)) fs -> P (JObj fs)) :
  forall v, P v.
Proof.
  fix F 1; intros [| |b|n|s|xs|fs]; [exact HU | exact HN | apply HB | apply HNum | apply HS | |].
  - apply HA; revert xs; fix G 1; intros [|x r]; constructor; [apply F | apply G].
  - apply HO; revert fs; fix G 1; intros [|[k x] r]; constructor; [apply F | apply G].
Qed.

Lemma to_js_string_ok (v : jvalue) :
  no_tostring_key v = true -> exists s, to_js_string v = Ok s.
Proof.
  induction v as [| |[|]|n|s|xs IH|fs _] using jvalue_ind'; intros H; simpl; eauto.
  - simpl in H.
    assert (E : exists ss, traverse (fun x => match x with
                                              | JUndef | JNull => Ok []
                                              | _ => to_js_string x end) xs = Ok ss).
    { induction IH as [|x r Hx _ IHr]; simpl in H |- *; [eauto|].
      apply andb_true_iff in H as [H1 H2].
      destruct (IHr H2) as [ss Ess]; rewrite Ess.
      destruct (Hx H1) as [sx Esx].
      assert (Ey : exists y, match x with
                             | JUndef | JNull => Ok []
                             | _ => to_js_string x end = Ok y) by (destruct x; eauto).
      destruct Ey as [y ->]; simpl bind; eauto. }
    destruct E as [ss ->]; simpl bind; eauto.
  - simpl in H; apply andb_true_iff in H as [H _].
    destruct (has_key "toString" fs); [discriminate | eauto].
Qed.

Lemma no_key_lookup (fs : list (string * jvalue)) (k : string) :
  no_tostring_key (JObj fs) = true -> no_tostring_key (lookup_field k fs) = true.
Proof.
  simpl; intros H; apply andb_true_iff in H as [_ H].
  induction fs as [|[k' x] r IH]; simpl in *; [reflexivity|].
  apply andb_true_iff in H as [H1 H2].
  destruct (String.eqb k k'); auto.
Qed.

Lemma no_key_oget (v : jvalue) (k : string) :
  no_tostring_key v = true -> no_tostring_key (oget v k) = true.
Proof. destruct v; simpl; auto using no_key_lookup. Qed.

Lemma no_key_find_user (ms : list (list (string * jvalue))) (u : jvalue) :
  forallb no_tostring_key (map JObj ms) = true ->
  find_user_go (map JObj ms) = Ok u -> no_tostring_key u = true.
Proof.
  induction ms as [|fs ms IH]; simpl; intros H Hf; [injection Hf as <-; reflexivity|].
  apply andb_true_iff in H as [H1 H2].
  destruct (is_str (lookup_field "role" fs) (str "user")); [injection Hf as <-; exact H1|].
  exact (IH H2 Hf).
Qed.

(** On a body with no [toString] key, the Gemini prompt can always be
    built: both string conversions succeed. *)
Lemma gemini_prompt_ok (fs : list (string * jvalue)) (ms : list (list (string * jvalue)))
  (u : jvalue) :
  no_tostring_key (JObj fs) = true -> lookup_field "messages" fs = JArr (map JObj ms) ->
  find_user_go (map JObj ms) = Ok u ->
  (exists s, to_js_string (lookup_field "system" fs) = Ok s)
  /\ (exists s, to_js_string (or_else (oget u "content") (JStr [])) = Ok s).
Proof.
  intros Hno Hmsgs Hu; split; apply to_js_string_ok; [apply no_key_lookup; exact Hno|].
  pose proof (no_key_lookup fs "messages" Hno) as Hm; rewrite Hmsgs in Hm.
  pose proof (no_key_oget u "content" (no_key_find_user ms u Hm Hu)) as Hc.
  unfold or_else; destruct (truthy (oget u "content")); [exact Hc | reflexivity].
Qed.

(** Runs a Gemini [try] block up to the upstream call, on a body with no
    [toString] key and an array of message objects. *)
Ltac gemini_prefix fs ms Hno Hbody Hmsgs :=
  let u := fresh "u" in let Hu := fresh "Hu" in
  let E1 := fresh "E1" in let E2 := fresh "E2" in
  destruct (find_user_objects ms) as [u Hu];
  destruct (gemini_prompt_ok fs ms u Hno Hmsgs Hu) as [[? E1] [? E2]];
  unfold gemini_try, gemini_v0_try; rewrite Hbody; simpl bind;
  rewrite Hmsgs; simpl find_user; rewrite Hu; simpl bind;
  destruct (truthy (lookup_field "system" fs));
  [rewrite E1; simpl bind; rewrite E2; simpl bind | simpl bind].




(** C8, the older Gemini handler of [src/unnamed/part_000]: on an answer
    with the parts ["a"] and ["b"] it returns ["a"], the first part only,
    where the handler of [src/api/gemini.js] returns ["ab"]. *)
Theorem gemini_v0_returns_first_part_only :
  gemini_v0_handler c8_request (fun _ => Ok c8_data)
  = mk_response 200 json_cors_headers (Some (text_envelope (JStr (str "a"))))
  /\ gemini_handler c8_request (fun _ => Ok c8_data)
     = mk_response 200 json_cors_headers (Some (text_envelope (JStr (str "ab")))).
Proof. split; reflexivity. Qed.

(** *** C9 *)

Ltac handler_shape try_headers :=
  unfold response_shape;
  lazymatch goal with
  | |- context [String.eqb (method ?q) "OPTIONS"] =>
      destruct (String.eqb_spec (method q) "OPTIONS") as [Ho|Ho];
      [left; auto|right; split; [exact Ho|]];
      destruct (String.eqb (method q) "POST"); simpl negb; cbv iota
  end;
  [ lazymatch goal with
    | |- context [match ?t with Ok _ => _ | Throw _ => _ end] =>
        destruct t as [r|msg] eqn:E; [left; eapply try_headers; exact E | left; reflexivity]
    end
  | first [left; reflexivity | right; split; reflexivity] ].

Lemma gemini_handler_shape req fetch_json :
  response_shape req (gemini_handler req fetch_json).
Proof. unfold gemini_handler; handler_shape gemini_try_headers. Qed.

Lemma gemini_v0_handler_shape req fetch_json :
  response_shape req (gemini_v0_handler req fetch_json).
Proof. unfold gemini_v0_handler; handler_shape gemini_v0_try_headers. Qed.

Lemma groq_handler_shape json_parse req fetch_json :
  response_shape req (groq_handler json_parse req fetch_json).
Proof. unfold groq_handler; handler_shape (groq_try_headers json_parse). Qed.

(** C9, as stated, fails: the OPTIONS preflight of each handler has no
    Content-Type, and the 405 responses of both Gemini handlers have no
    Access-Control-Allow-Origin. *)
Lemma preflight_and_gemini_405_headers :
  header (gemini_handler (mk_request "OPTIONS" (Ok JNull)) (fun _ => Ok JNull)) "Content-Type"
    = None
  /\ header (gemini_handler (mk_request "GET" (Ok JNull)) (fun _ => Ok JNull))
       "Access-Control-Allow-Origin" = None
  /\ header (gemini_v0_handler (mk_request "GET" (Ok JNull)) (fun _ => Ok JNull))
       "Access-Control-Allow-Origin" = None.
Proof. repeat split; reflexivity. Qed.

(** C9, amended: every response of the three handlers that does not answer
    an OPTIONS request has Content-Type application/json; the OPTIONS
    preflight has Access-Control-Allow-Origin [*] and no Content-Type; every
    response whose status is not 405 has Access-Control-Allow-Origin [*];
    and every response of the Groq handler has Access-Control-Allow-Origin [*]. *)
Theorem handler_response_headers (json_parse : jstr -> option jvalue) (req : request)
  (fetch_json : upstream) :
  (forall r, In r (all_handlers json_parse req fetch_json) ->
     (method req = "OPTIONS" ->
        header r "Access-Control-Allow-Origin" = Some "*" /\ header r "Content-Type" = None)
     /\ (method req <> "OPTIONS" -> header r "Content-Type" = Some "application/json")
     /\ ((status r <> 405)%Z -> header r "Access-Control-Allow-Origin" = Some "*"))
  /\ header (groq_handler json_parse req fetch_json) "Access-Control-Allow-Origin" = Some "*".
Proof.
  assert (Hr : forall r, response_shape req r ->
     (method req = "OPTIONS" ->
        header r "Access-Control-Allow-Origin" = Some "*" /\ header r "Content-Type" = None)
     /\ (method req <> "OPTIONS" -> header r "Content-Type" = Some "application/json")
     /\ ((status r <> 405)%Z -> header r "Access-Control-Allow-Origin" = Some "*")).
  { intros r [(Ho & ->) | (Ho & [Hh | (Hs & Hh)])]; unfold header;
      try rewrite Hh; repeat split; intros; try reflexivity; try contradiction. }
  split.
  - intros r Hin; apply Hr; simpl in Hin.
    destruct Hin as [<- | [<- | [<- | []]]];
      auto using gemini_handler_shape, gemini_v0_handler_shape, groq_handler_shape.
  - destruct (groq_handler_shape json_parse req fetch_json)
      as [(Ho & ->) | (Ho & [Hh | (Hs & Hh)])];
      [reflexivity | unfold header; rewrite Hh; reflexivity |].
    unfold groq_handler in Hs, Hh |- *.
    destruct (String.eqb_spec (method req) "OPTIONS"); [contradiction|].
    destruct (String.eqb (method req) "POST"); simpl in Hs, Hh |- *; [|discriminate Hh].
    destruct (groq_try json_parse req fetch_json) as [r|] eqn:E; [|discriminate Hh].
    rewrite (groq_try_headers _ _ _ _ E) in Hh; discriminate Hh.
Qed.

Lemma handler_response_headers_witness :
  header (gemini_handler (mk_request "GET" (Ok JNull)) (fun _ => Ok JNull)) "Content-Type"
  = Some "application/json".
Proof.
  destruct (handler_response_headers (fun _ => None) (mk_request "GET" (Ok JNull))
              (fun _ => Ok JNull)) as [H _].
  apply (H _ (or_introl eq_refl)); discriminate.
Defined.

(** ** Further properties of the scanner *)

Lemma step_plain st ch :
  ch <> ch_LF -> ch <> ch_CR -> ch <> ch_TAB -> fst (step st ch) = [ch].
Proof.
  intros H1 H2 H3; destruct st as [[|] [|]]; unfold step; cbn [inString escaped];
    repeat match goal with
           | |- context [N.eqb ch ?k] => destruct (N.eqb_spec ch k)
           end; subst; try contradiction; reflexivity.
Qed.

Lemma escape_go_plain st s :
  ~ In ch_LF s -> ~ In ch_CR s -> ~ In ch_TAB s -> escape_go st s = s.
Proof.
  revert st; induction s as [|ch r IH]; intros st H1 H2 H3; [reflexivity|].
  rewrite escape_go_cons, step_plain; simpl.
  - f_equal; apply IH; intros H; [apply H1 | apply H2 | apply H3]; right; exact H.
  - intros ->; apply H1; left; reflexivity.
  - intros ->; apply H2; left; reflexivity.
  - intros ->; apply H3; left; reflexivity.
Qed.

(** Within what one step emits, no raw line feed, carriage return or tab
    stands where the scanner of the output is inside a string and not
    after a backslash. *)
Lemma step_no_raw_control st ch p c q :
  fst (step st ch) = p ++ c :: q -> final_state st p = in_str ->
  c <> ch_LF /\ c <> ch_CR /\ c <> ch_TAB.
Proof.
  intros Ho Hp.
  destruct st as [[|] [|]]; unfold step in Ho; cbn [inString escaped] in Ho;
    repeat match type of Ho with
           | context [N.eqb ch ?k] => destruct (N.eqb_spec ch k)
           end; subst;
    destruct p as [|x [|y p]]; simpl in Ho, Hp;
    try discriminate Ho; try discriminate Hp;
    injection Ho as <- Ho; try (destruct p; discriminate Ho);
    try (injection Ho as <- Ho; try (destruct p; discriminate Ho));
    repeat split; intros E; subst; try discriminate E; try contradiction;
    try discriminate Hp;
    match goal with
    | H : [] = _ ++ _ :: _ |- _ => exact (app_cons_not_nil _ _ _ H)
    end.
Qed.

Lemma escape_go_no_raw_control st s p c q :
  escape_go st s = p ++ c :: q -> final_state st p = in_str ->
  c <> ch_LF /\ c <> ch_CR /\ c <> ch_TAB.
Proof.
  revert st p; induction s as [|ch r IH]; intros st p Hs Hp.
  - destruct (app_cons_not_nil _ _ _ Hs).
  - rewrite escape_go_cons in Hs.
    destruct (step_output_stable st ch) as [_ Hf].
    apply app_eq_app in Hs; destruct Hs as (l & [(Eo & Er) | (Ep & Er)]).
    + destruct l as [|c' l].
      * rewrite app_nil_r in Eo; subst p.
        apply (IH (snd (step st ch)) []); [exact (eq_sym Er)|].
        simpl; rewrite <- Hf; exact Hp.
      * injection Er as <- Er.
        exact (step_no_raw_control st ch p c l Eo Hp).
    + subst p; rewrite final_state_app, Hf in Hp.
      exact (IH _ l Er Hp).
Qed.

Lemma escape_go_state_quotes st s :
  final_state st (escape_go st s) = final_state st s
  /\ filter (N.eqb ch_quote) (escape_go st s) = filter (N.eqb ch_quote) s.
Proof.
  revert st; induction s as [|ch r IH]; intros st; [split; reflexivity|].
  rewrite escape_go_cons, final_state_app, filter_app.
  destruct (step_output_stable st ch) as [_ Hf]; rewrite Hf.
  destruct (IH (snd (step st ch))) as [IH1 IH2]; split; [exact IH1|].
  transitivity (filter (N.eqb ch_quote) (fst (step st ch)) ++ filter (N.eqb ch_quote) r);
    [f_equal; exact IH2|].
  replace (filter (N.eqb ch_quote) (ch :: r))
    with (filter (N.eqb ch_quote) [ch] ++ filter (N.eqb ch_quote) r)
    by (cbn [filter]; destruct (N.eqb ch_quote ch); reflexivity).
  f_equal.
  destruct st as [[|] [|]]; unfold step; cbn [inString escaped];
    repeat match goal with
           | |- context [N.eqb ch ?k] => destruct (N.eqb_spec ch k)
           end; subst; simpl; reflexivity.
Qed.

(** ** Further properties of the extractor *)

Lemma extract_some_shape (t c : jstr) :
  extractJsonObject t = Some c ->
  exists a m b, t = a ++ ch_lbrace :: m ++ ch_rbrace :: b
    /\ c = ch_lbrace :: m ++ [ch_rbrace] /\ ~ In ch_lbrace a /\ ~ In ch_rbrace b.
Proof.
  unfold extractJsonObject, extract_by.
  destruct (in_dec N.eq_dec ch_lbrace t) as [Hl|Hl];
    [|unfold indexOf; rewrite index_of_from_notin by exact Hl; discriminate].
  destruct (in_dec N.eq_dec ch_rbrace t) as [Hr|Hr];
    [|unfold lastIndexOf; rewrite last_index_of_from_notin by exact Hr;
      rewrite Z.eqb_refl, Bool.orb_true_r; discriminate].
  destruct (first_occurrence _ _ Hl) as (p & q & Ep & Hp).
  destruct (last_occurrence _ _ Hr) as (p' & q' & Ep' & Hq').
  assert (E1 : indexOf N.eqb t ch_lbrace = Z.of_nat (List.length p))
    by (unfold indexOf; rewrite Ep, (index_of_from_first _ _ _ _ Hp); lia).
  assert (E2 : lastIndexOf N.eqb t ch_rbrace = Z.of_nat (List.length p'))
    by (unfold lastIndexOf; rewrite Ep', (last_index_of_from_last _ _ _ _ _ Hq'); lia).
  rewrite E1, E2.
  destruct (Z.eqb_spec (Z.of_nat (List.length p)) (-1)); [lia|].
  destruct (Z.eqb_spec (Z.of_nat (List.length p')) (-1)); [lia|].
  destruct (Z.leb_spec (Z.of_nat (List.length p')) (Z.of_nat (List.length p))) as [Hle|Hlt];
    [discriminate|].
  simpl; intros Hc; injection Hc as <-.
  assert (Et := Ep); rewrite Ep' in Et.
  apply app_eq_app in Et; destruct Et as (l & [(E3 & E4) | (E3 & _)]);
    [|rewrite E3, length_app in Hlt; lia].
  - destruct l as [|x m].
    + rewrite app_nil_r in E3; subst p'; lia.
    + simpl in E4; injection E4 as <- E4.
      exists p, m, q'; split; [rewrite Ep, E4; reflexivity|]; split; [|split; assumption].
      unfold slice; rewrite Nat2Z.id, Ep, E4, skipn_app_length.
      replace (Z.to_nat (Z.of_nat (List.length p') + 1 - Z.of_nat (List.length p)))
        with (S (List.length m + 1))
        by (rewrite E3, length_app; simpl; lia).
      simpl; rewrite firstn_app_2; reflexivity.
Qed.

Lemma extract_brace_wrapped (m : jstr) :
  extractJsonObject (ch_lbrace :: m ++ [ch_rbrace]) = Some (ch_lbrace :: m ++ [ch_rbrace]).
Proof.
  unfold extractJsonObject, extract_by.
  assert (E1 : indexOf N.eqb (ch_lbrace :: m ++ [ch_rbrace]) ch_lbrace = 0%Z)
    by (apply (index_of_from_first _ [] _ 0); intros []).
  assert (E2 : lastIndexOf N.eqb (ch_lbrace :: m ++ [ch_rbrace]) ch_rbrace
               = Z.of_nat (S (List.length m))).
  { unfold lastIndexOf; change (ch_lbrace :: m ++ [ch_rbrace]) with ((ch_lbrace :: m) ++ [ch_rbrace]).
    rewrite (last_index_of_from_last _ (ch_lbrace :: m) [] 0 (-1)) by (intros []); simpl; lia. }
  rewrite E1, E2.
  destruct (Z.eqb_spec (Z.of_nat (S (List.length m))) (-1)); [lia|].
  destruct (Z.leb_spec (Z.of_nat (S (List.length m))) 0); [lia|].
  simpl; unfold slice; simpl skipn.
  rewrite firstn_all2; [reflexivity|].
  simpl; rewrite length_app; simpl; lia.
Qed.

(** ** Further properties of the sanitizer *)

Lemma drops_in (a b : jstr) (x : char) :
  drops_trailing_commas a b -> In x b -> In x a.
Proof.
  induction 1 as [|c a b _ IH|w cl a b _ _ _ IH]; simpl; auto.
  - intros [->|H]; auto.
  - intros [->|H]; right; apply in_or_app; right; simpl; auto.
Qed.

Lemma strip_drops (s : jstr) : drops_trailing_commas s (strip_trailing_commas s).
Proof.
  remember (List.length s) as n eqn:En.
  revert s En; induction n as [n IH] using (well_founded_induction lt_wf); intros s En.
  destruct s as [|c r]; [constructor|].
  simpl in En; rewrite strip_cons.
  destruct (N.eqb c ch_comma) eqn:Ec.
  - apply N.eqb_eq in Ec; subst c.
    destruct (ws_then_closer r) as [[cl rest]|] eqn:E.
    + destruct (ws_then_closer_some _ _ _ E) as (w & -> & Hw & Hcl).
      apply dtc_drop; [exact Hw | exact Hcl|].
      apply (IH (List.length rest)); [rewrite length_app in En; simpl in En; lia | reflexivity].
    + constructor; apply (IH (List.length r)); [lia | reflexivity].
  - constructor; apply (IH (List.length r)); [lia | reflexivity].
Qed.

Lemma replace_removes (x : char) (s : jstr) :
  x <> ch_backslash -> x <> ch_n -> ~ In x (replace_char_by_bs_n x s).
Proof.
  intros H1 H2; induction s as [|c r IH]; [intros []|]; simpl.
  destruct (N.eqb_spec c x) as [->|Hne]; simpl.
  - intros [E|[E|E]]; [congruence|congruence|exact (IH E)].
  - intros [E|E]; [congruence|exact (IH E)].
Qed.

Lemma replace_notin (x y : char) (s : jstr) :
  y <> ch_backslash -> y <> ch_n -> ~ In y s -> ~ In y (replace_char_by_bs_n x s).
Proof.
  intros H1 H2; induction s as [|c r IH]; intros Hs; [intros []|]; simpl.
  assert (Hr : ~ In y r) by (intros H; apply Hs; right; exact H).
  destruct (N.eqb c x); simpl.
  - intros [E|[E|E]]; [congruence|congruence|exact (IH Hr E)].
  - intros [E|E]; [apply Hs; left; exact E|exact (IH Hr E)].
Qed.

(** ** Extra properties of the three text functions *)

(** The candidate of [extractJsonObject], when there is one, is a piece of
    the text that starts with a left brace and ends with a right brace; no
    left brace comes before it and no right brace after it. *)
Theorem extract_candidate_is_span (t c : jstr)
  (Hc : extractJsonObject t = Some c) :
  exists a m b, t = a ++ c ++ b /\ c = ch_lbrace :: m ++ [ch_rbrace]
    /\ ~ In ch_lbrace a /\ ~ In ch_rbrace b.
Proof.
  destruct (extract_some_shape t c Hc) as (a & m & b & Et & -> & Ha & Hb).
  exists a, m, b; split; [rewrite Et; simpl; rewrite <- app_assoc; reflexivity|].
  split; [reflexivity|]; split; assumption.
Qed.

Lemma extract_candidate_is_span_witness :
  exists a m b, jsq "x{a}y" = a ++ jsq "{a}" ++ b /\ jsq "{a}" = ch_lbrace :: m ++ [ch_rbrace]
    /\ ~ In ch_lbrace a /\ ~ In ch_rbrace b.
Proof. apply (extract_candidate_is_span (jsq "x{a}y") (jsq "{a}")); reflexivity. Defined.

(** Extracting again from a candidate gives the candidate back. *)
Theorem extract_idempotent (t c : jstr) (Hc : extractJsonObject t = Some c) :
  extractJsonObject c = Some c.
Proof.
  destruct (extract_some_shape t c Hc) as (a & m & b & _ & -> & _ & _).
  apply extract_brace_wrapped.
Qed.

Lemma extract_idempotent_witness :
  extractJsonObject (jsq "{a} and {b}") = Some (jsq "{a} and {b}").
Proof. apply (extract_idempotent (jsq "Here: {a} and {b}!")); reflexivity. Defined.

(** The sanitizer leaves no U+2028 and no U+2029 in its output. *)
Theorem sanitize_no_line_separators (s : jstr) :
  ~ In ch_LS (sanitizeCommonBreakers s) /\ ~ In ch_PS (sanitizeCommonBreakers s).
Proof.
  unfold sanitizeCommonBreakers; split; intros H;
    apply (drops_in _ _ _ (strip_drops _)) in H; revert H.
  - apply replace_notin; [discriminate | discriminate |].
    apply replace_removes; discriminate.
  - apply replace_removes; discriminate.
Qed.

(** Once U+2028 and U+2029 are rewritten, the sanitizer only takes out
    trailing-comma runs: a comma, the [\s] code units after it and the
    closing brace or bracket after them become that closer; every other
    code unit is kept, in order. *)
Theorem sanitize_only_drops_comma_runs (s : jstr) :
  drops_trailing_commas (replace_char_by_bs_n ch_PS (replace_char_by_bs_n ch_LS s))
    (sanitizeCommonBreakers s).
Proof. apply strip_drops. Qed.

(** The scanner leaves a text with no raw line feed, carriage return or
    tab unchanged. *)
Theorem escape_identity_without_controls (s : jstr)
  (H1 : ~ In ch_LF s) (H2 : ~ In ch_CR s) (H3 : ~ In ch_TAB s) :
  escapeNewlinesInsideStrings s = s.
Proof. apply escape_go_plain; assumption. Qed.

Lemma escape_identity_without_controls_witness :
  escapeNewlinesInsideStrings (jsq "{'a': 'b c'}") = jsq "{'a': 'b c'}".
Proof. apply escape_identity_without_controls; not_in_list. Defined.

(** When the scanner is back outside every string after a prefix, the
    rest is escaped on its own: the output is the output of the prefix
    followed by the output of the rest. *)
Theorem escape_concat_outside (a b : jstr) (Ha : final_state scan_init a = scan_init) :
  escapeNewlinesInsideStrings (a ++ b)
  = escapeNewlinesInsideStrings a ++ escapeNewlinesInsideStrings b.
Proof. unfold escapeNewlinesInsideStrings; rewrite escape_go_app, Ha; reflexivity. Qed.

Lemma escape_concat_outside_witness :
  escapeNewlinesInsideStrings (jsq "{'k': 1}" ++ c3_input)
  = escapeNewlinesInsideStrings (jsq "{'k': 1}") ++ escapeNewlinesInsideStrings c3_input.
Proof. apply escape_concat_outside; reflexivity. Defined.

(** In the scanner's output, no raw line feed, carriage return or tab
    stands where a scan of the output is inside a string and not right
    after a backslash. *)
Theorem escape_no_raw_control_in_strings (s p q : jstr) (c : char)
  (Hs : escapeNewlinesInsideStrings s = p ++ c :: q)
  (Hp : final_state scan_init p = in_str) :
  c <> ch_LF /\ c <> ch_CR /\ c <> ch_TAB.
Proof. exact (escape_go_no_raw_control scan_init s p c q Hs Hp). Qed.

Lemma escape_no_raw_control_in_strings_witness :
  ch_backslash <> ch_LF /\ ch_backslash <> ch_CR /\ ch_backslash <> ch_TAB.
Proof.
  apply (escape_no_raw_control_in_strings c3_input (jsq "{'a': 'line1")
           (ch_n :: jsq "line2'}")); reflexivity.
Defined.

(** The scanner neither adds nor removes double quotes, and a scan of its
    output ends in the same string context as a scan of its input (an
    unterminated string stays unterminated). *)
Theorem escape_keeps_quotes_and_context (s : jstr) :
  final_state scan_init (escapeNewlinesInsideStrings s) = final_state scan_init s
  /\ filter (N.eqb ch_quote) (escapeNewlinesInsideStrings s) = filter (N.eqb ch_quote) s.
Proof. apply escape_go_state_quotes. Qed.

(** ** Further properties of the handlers *)

Lemma get_or_else_oget (b : jvalue) (k : string) :
  get (or_else b (JObj [])) k = Ok (oget (or_else b (JObj [])) k).
Proof.
  destruct b as [| |[|]|n|[|c s]|xs|fs]; unfold or_else; simpl; try reflexivity.
  destruct (Z.eqb n 0); reflexivity.
Qed.

(** The [try] block of the Groq handler, once the body is read, is one
    upstream call with the message list built from the body. *)
Lemma groq_try_fetch json_parse req fetch_json (body : jvalue) :
  json_body req = Ok body ->
  let b := or_else body (JObj []) in
  groq_try json_parse req fetch_json
  = let* data := fetch_json (JArr
        ((if truthy (oget b "system")
          then [JObj [("role", JStr (str "system")); ("content", oget b "system")]] else [])
         ++ (match oget b "messages" with JArr xs => xs | _ => [] end)
         ++ [final_guard_message])) in
    if truthy (oget data "error") then
      Ok (mk_response 400 json_cors_headers (Some (error_body (oget data "error"))))
    else groq_reply json_parse (groq_raw_text data).
Proof.
  intros Hbody b; unfold groq_try; rewrite Hbody; cbn [bind].
  rewrite !get_or_else_oget; cbn [bind]; reflexivity.
Qed.

Lemma groq_handler_post json_parse req fetch_json :
  method req = "POST" ->
  groq_handler json_parse req fetch_json
  = match groq_try json_parse req fetch_json with
    | Ok r => r
    | Throw msg => mk_response 500 json_cors_headers (Some (error_body (JStr msg)))
    end.
Proof. intros Hpost; unfold groq_handler; rewrite Hpost; reflexivity. Qed.

Lemma gemini_handler_post req fetch_json :
  method req = "POST" ->
  gemini_handler req fetch_json
  = match gemini_try req fetch_json with
    | Ok r => r
    | Throw msg => mk_response 500 json_cors_headers (Some (error_body (JStr msg)))
    end.
Proof. intros Hpost; unfold gemini_handler; rewrite Hpost; reflexivity. Qed.

Lemma gemini_v0_handler_post req fetch_json :
  method req = "POST" ->
  gemini_v0_handler req fetch_json
  = match gemini_v0_try req fetch_json with
    | Ok r => r
    | Throw msg => mk_response 500 json_cors_headers (Some (error_body (JStr msg)))
    end.
Proof. intros Hpost; unfold gemini_v0_handler; rewrite Hpost; reflexivity. Qed.

(** Groq: when the upstream answer has a truthy [error], the handler
    answers 400 with that error, whatever the request body. *)
Theorem groq_upstream_error_400 json_parse req fetch_json (body data : jvalue)
  (Hpost : method req = "POST") (Hbody : json_body req = Ok body)
  (Hfetch : forall payload, fetch_json payload = Ok data)
  (Herr : truthy (oget data "error") = true) :
  groq_handler json_parse req fetch_json
  = mk_response 400 json_cors_headers (Some (error_body (oget data "error"))).
Proof.
  rewrite (groq_handler_post _ _ _ Hpost), (groq_try_fetch _ _ _ _ Hbody), Hfetch.
  cbn [bind]; rewrite Herr; reflexivity.
Qed.

Lemma groq_upstream_error_400_witness :
  groq_handler (fun _ => None) (post_request JNull)
    (fun _ => Ok (JObj [("error", JStr (str "rate limited"))]))
  = mk_response 400 json_cors_headers (Some (error_body (JStr (str "rate limited")))).
Proof.
  apply (groq_upstream_error_400 _ _ _ JNull (JObj [("error", JStr (str "rate limited"))]));
    reflexivity.
Defined.

(** Groq: when the upstream message content is truthy but neither a string
    nor an array (a number, [true] or an object), [extractJsonObject]
    throws a TypeError ([text.indexOf] is not a function) and the handler
    answers 500 with that error's message. *)
Theorem groq_nonstring_content_500 json_parse req fetch_json (body data : jvalue)
  (Hpost : method req = "POST") (Hbody : json_body req = Ok body)
  (Hfetch : forall payload, fetch_json payload = Ok data)
  (Herr : truthy (oget data "error") = false)
  (Htruthy : truthy (oget (oget (oindex0 (oget data "choices")) "message") "content") = true)
  (Hstr : forall s, oget (oget (oindex0 (oget data "choices")) "message") "content" <> JStr s)
  (Harr : forall xs, oget (oget (oindex0 (oget data "choices")) "message") "content" <> JArr xs) :
  exists msg, groq_handler json_parse req fetch_json
              = mk_response 500 json_cors_headers (Some (error_body (JStr msg))).
Proof.
  rewrite (groq_handler_post _ _ _ Hpost), (groq_try_fetch _ _ _ _ Hbody), Hfetch.
  cbn [bind]; rewrite Herr.
  unfold groq_reply, groq_raw_text, or_else; rewrite Htruthy.
  destruct (oget (oget (oindex0 (oget data "choices")) "message") "content");
    try (exfalso; eapply Hstr; reflexivity); try (exfalso; eapply Harr; reflexivity);
    eexists; reflexivity.
Qed.

Lemma groq_nonstring_content_500_witness :
  exists msg,
  groq_handler (fun _ => None) (post_request (JObj []))
    (fun _ => Ok (JObj [("choices", JArr [JObj [("message", JObj [("content", JNum 42)])]])]))
  = mk_response 500 json_cors_headers (Some (error_body (JStr msg))).
Proof.
  apply (groq_nonstring_content_500 _ _ _ (JObj [])
           (JObj [("choices", JArr [JObj [("message", JObj [("content", JNum 42)])]])]));
    try reflexivity; discriminate.
Defined.

(** Groq: the upstream call gets the system message when [system] is
    truthy, then the body's [messages] when it is an array (anything else
    is left out), then the guard instruction; a body that is not an object
    ([null] included) sends the guard instruction alone. *)
Theorem groq_upstream_messages json_parse req fetch_json (body : jvalue)
  (Hpost : method req = "POST") (Hbody : json_body req = Ok body) :
  (forall fs, body = JObj fs ->
     groq_handler json_parse req fetch_json
     = groq_handler json_parse req (fun _ => fetch_json (JArr
         ((if truthy (lookup_field "system" fs)
           then [JObj [("role", JStr (str "system")); ("content", lookup_field "system" fs)]]
           else [])
          ++ (match lookup_field "messages" fs with JArr xs => xs | _ => [] end)
          ++ [final_guard_message]))))
  /\ ((forall fs, body <> JObj fs) ->
      groq_handler json_parse req fetch_json
      = groq_handler json_parse req (fun _ => fetch_json (JArr [final_guard_message]))).
Proof.
  split; [intros fs Eb | intros Hn];
    repeat rewrite (groq_handler_post _ _ _ Hpost);
    repeat rewrite (groq_try_fetch _ _ _ _ Hbody).
  - subst body; reflexivity.
  -
    assert (E : oget (or_else body (JObj [])) "system" = JUndef
                /\ oget (or_else body (JObj [])) "messages" = JUndef).
    { destruct body as [| |[|]|n|[|c s]|xs|fs]; unfold or_else; simpl; try (split; reflexivity);
        [destruct (Z.eqb n 0); split; reflexivity | exfalso; exact (Hn fs eq_refl)]. }
    destruct E as [-> ->]; reflexivity.
Qed.

Lemma groq_upstream_messages_witness :
  groq_handler (fun _ => None) (post_request JNull) (fun p => Ok (JObj [("error", p)]))
  = groq_handler (fun _ => None) (post_request JNull)
      (fun _ => Ok (JObj [("error", JArr [final_guard_message])])).
Proof.
  destruct (groq_upstream_messages (fun _ => None) (post_request JNull)
              (fun p => Ok (JObj [("error", p)])) JNull eq_refl eq_refl) as [_ H].
  apply H; discriminate.
Defined.

Lemma find_user_first (pre post : list (list (string * jvalue))) (m : list (string * jvalue)) :
  Forall (fun g => is_str (lookup_field "role" g) (str "user") = false) pre ->
  is_str (lookup_field "role" m) (str "user") = true ->
  find_user_go (map JObj (pre ++ m :: post)) = Ok (JObj m).
Proof.
  intros Hpre Hm; induction Hpre as [|g pre Hg _ IH]; simpl.
  - rewrite Hm; reflexivity.
  - rewrite Hg; exact IH.
Qed.

(** All three handlers: when [await req.json()] throws (with a non-empty
    message, as a syntax error has), the answer is 500 with that message
    as [error]. *)
Theorem request_body_error_500 json_parse req fetch_json (m : jstr)
  (Hpost : method req = "POST") (Hbody : json_body req = Throw m) (Hm : m <> []) :
  forall r, In r (all_handlers json_parse req fetch_json) ->
    r = mk_response 500 json_cors_headers (Some (error_body (JStr m))).
Proof.
  intros r Hin; simpl in Hin; destruct Hin as [<- | [<- | [<- | []]]].
  - rewrite (gemini_handler_post _ _ Hpost); unfold gemini_try; rewrite Hbody; reflexivity.
  - rewrite (gemini_v0_handler_post _ _ Hpost); unfold gemini_v0_try; rewrite Hbody; reflexivity.
  - rewrite (groq_handler_post _ _ _ Hpost); unfold groq_try; rewrite Hbody; reflexivity.
Qed.

Lemma request_body_error_500_witness :
  groq_handler (fun _ => None) (mk_request "POST" (Throw (str "Unexpected end of JSON input")))
    (fun _ => Ok JNull)
  = mk_response 500 json_cors_headers
      (Some (error_body (JStr (str "Unexpected end of JSON input")))).
Proof.
  apply (request_body_error_500 (fun _ => None)
           (mk_request "POST" (Throw (str "Unexpected end of JSON input"))) (fun _ => Ok JNull)
           (str "Unexpected end of JSON input") eq_refl eq_refl); [discriminate|].
  right; right; left; reflexivity.
Defined.

(** All three handlers: on a body with an array of message objects and
    no object with a [toString] key (so that the Gemini prompts can be
    built), when the upstream call throws (with a non-empty message), the
    answer is 500 with that message as [error]. *)
Theorem upstream_throw_500 json_parse req fetch_json (m : jstr)
  (fs : list (string * jvalue)) (ms : list (list (string * jvalue)))
  (Hpost : method req = "POST") (Hbody : json_body req = Ok (JObj fs))
  (Hno : no_tostring_key (JObj fs) = true)
  (Hmsgs : lookup_field "messages" fs = JArr (map JObj ms))
  (Hfetch : forall payload, fetch_json payload = Throw m) (Hm : m <> []) :
  forall r, In r (all_handlers json_parse req fetch_json) ->
    r = mk_response 500 json_cors_headers (Some (error_body (JStr m))).
Proof.
  intros r Hin; simpl in Hin; destruct Hin as [<- | [<- | [<- | []]]].
  - rewrite (gemini_handler_post _ _ Hpost);
      gemini_prefix fs ms Hno Hbody Hmsgs; rewrite Hfetch; reflexivity.
  - rewrite (gemini_v0_handler_post _ _ Hpost);
      gemini_prefix fs ms Hno Hbody Hmsgs; rewrite Hfetch; reflexivity.
  - rewrite (groq_handler_post _ _ _ Hpost), (groq_try_fetch _ _ _ _ Hbody), Hfetch;
      reflexivity.
Qed.

Lemma upstream_throw_500_witness :
  gemini_handler
    (post_request (JObj [("system", JStr (str "be brief"));
                         ("messages", JArr [JObj [("role", JStr (str "user"));
                                                  ("content", JStr (str "hi"))]])]))
    (fun _ => Throw (str "fetch failed"))
  = mk_response 500 json_cors_headers (Some (error_body (JStr (str "fetch failed")))).
Proof.
  apply (upstream_throw_500 (fun _ => None)
           (post_request (JObj [("system", JStr (str "be brief"));
                                ("messages", JArr [JObj [("role", JStr (str "user"));
                                                         ("content", JStr (str "hi"))]])]))
           (fun _ => Throw (str "fetch failed"))
           (str "fetch failed")
           [("system", JStr (str "be brief"));
            ("messages", JArr [JObj [("role", JStr (str "user")); ("content", JStr (str "hi"))]])]
           [[("role", JStr (str "user")); ("content", JStr (str "hi"))]]);
    try reflexivity; [discriminate | left; reflexivity].
Defined.

(** Both Gemini handlers: when the body is not an object whose [messages]
    is an array ([null], a string, or [messages] missing or not an array),
    [messages.find] or the destructuring throws a TypeError and the answer
    is 500 with that error's message, before any upstream call. *)
Theorem gemini_messages_not_array_500 req fetch_json (body : jvalue)
  (Hpost : method req = "POST") (Hbody : json_body req = Ok body)
  (Hnot : forall fs xs, body = JObj fs -> lookup_field "messages" fs <> JArr xs) :
  (exists msg, gemini_handler req fetch_json
               = mk_response 500 json_cors_headers (Some (error_body (JStr msg))))
  /\ (exists msg, gemini_v0_handler req fetch_json
                  = mk_response 500 json_cors_headers (Some (error_body (JStr msg)))).
Proof.
  rewrite (gemini_handler_post _ _ Hpost), (gemini_v0_handler_post _ _ Hpost).
  unfold gemini_try, gemini_v0_try; rewrite Hbody.
  destruct body as [| | | | | |fs]; simpl bind; try (split; eexists; reflexivity).
  destruct (lookup_field "messages" fs) eqn:E; try (split; eexists; reflexivity).
  exfalso; exact (Hnot fs _ eq_refl E).
Qed.

Lemma gemini_messages_not_array_500_witness :
  (exists msg,
   gemini_handler (post_request (JObj [("messages", JStr (str "hi"))])) (fun _ => Ok JNull)
   = mk_response 500 json_cors_headers (Some (error_body (JStr msg))))
  /\ (exists msg,
   gemini_v0_handler (post_request (JObj [("messages", JStr (str "hi"))])) (fun _ => Ok JNull)
   = mk_response 500 json_cors_headers (Some (error_body (JStr msg)))).
Proof.
  apply (gemini_messages_not_array_500 _ _ (JObj [("messages", JStr (str "hi"))]));
    try reflexivity.
  intros fs xs E; injection E as <-; discriminate.
Defined.

(** Both Gemini handlers: on a body with an array of message objects and
    no object with a [toString] key, when the upstream answer has no error
    and no parts (a missing candidate, content or parts, or a falsy one),
    the answer is 200 with the empty text. *)
Theorem gemini_missing_parts_empty_text req fetch_json
  (fs dfs : list (string * jvalue)) (ms : list (list (string * jvalue)))
  (Hpost : method req = "POST") (Hbody : json_body req = Ok (JObj fs))
  (Hno : no_tostring_key (JObj fs) = true)
  (Hmsgs : lookup_field "messages" fs = JArr (map JObj ms))
  (Hfetch : forall payload, fetch_json payload = Ok (JObj dfs))
  (Herr : truthy (lookup_field "error" dfs) = false)
  (Hparts : truthy (oget (oget (oindex0 (lookup_field "candidates" dfs)) "content") "parts")
            = false) :
  gemini_handler req fetch_json
    = mk_response 200 json_cors_headers (Some (text_envelope (JStr [])))
  /\ gemini_v0_handler req fetch_json
    = mk_response 200 json_cors_headers (Some (text_envelope (JStr []))).
Proof.
  rewrite (gemini_handler_post _ _ Hpost), (gemini_v0_handler_post _ _ Hpost).
  gemini_prefix fs ms Hno Hbody Hmsgs;
    repeat rewrite Hfetch; simpl bind; rewrite Herr;
    (destruct (oget (oget (oindex0 (lookup_field "candidates" dfs)) "content") "parts")
       as [| |[|]|n|[|c s]|xs|fs']; try discriminate Hparts; try (split; reflexivity);
     simpl in Hparts; destruct (Z.eqb_spec n 0); [subst n; split; reflexivity | discriminate]).
Qed.

Lemma gemini_missing_parts_empty_text_witness :
  gemini_handler c8_request (fun _ => Ok (JObj [("candidates", JArr [])]))
    = mk_response 200 json_cors_headers (Some (text_envelope (JStr [])))
  /\ gemini_v0_handler c8_request (fun _ => Ok (JObj [("candidates", JArr [])]))
    = mk_response 200 json_cors_headers (Some (text_envelope (JStr []))).
Proof.
  apply (gemini_missing_parts_empty_text c8_request _
           [("messages", JArr [JObj [("role", JStr (str "user")); ("content", JStr (str "hi"))]])]
           [("candidates", JArr [])]
           [[("role", JStr (str "user")); ("content", JStr (str "hi"))]]); reflexivity.
Defined.




(** Both Gemini handlers, without a system prompt: the prompt sent
    upstream is the [content] of the first message whose [role] is
    ["user"] ([""] when that content is falsy); earlier messages of other
    roles and all later messages are ignored. *)
Theorem gemini_prompt_is_first_user_message req fetch_json
  (fs : list (string * jvalue)) (pre post : list (list (string * jvalue)))
  (m : list (string * jvalue))
  (Hpost : method req = "POST") (Hbody : json_body req = Ok (JObj fs))
  (Hsys : truthy (lookup_field "system" fs) = false)
  (Hmsgs : lookup_field "messages" fs = JArr (map JObj (pre ++ m :: post)))
  (Hpre : Forall (fun g => is_str (lookup_field "role" g) (str "user") = false) pre)
  (Hm : is_str (lookup_field "role" m) (str "user") = true) :
  gemini_handler req fetch_json
  = gemini_handler req (fun _ => fetch_json (or_else (lookup_field "content" m) (JStr [])))
  /\ gemini_v0_handler req fetch_json
  = gemini_v0_handler req (fun _ => fetch_json (or_else (lookup_field "content" m) (JStr []))).
Proof.
  split; repeat rewrite (gemini_handler_post _ _ Hpost);
    repeat rewrite (gemini_v0_handler_post _ _ Hpost);
    unfold gemini_try, gemini_v0_try; rewrite Hbody; simpl bind;
    rewrite Hmsgs; simpl find_user; rewrite (find_user_first pre post m Hpre Hm); simpl bind;
    rewrite Hsys; reflexivity.
Qed.

Lemma gemini_prompt_is_first_user_message_witness :
  gemini_handler
    (post_request (JObj [("messages", JArr [
       JObj [("role", JStr (str "assistant")); ("content", JStr (str "a"))];
       JObj [("role", JStr (str "user")); ("content", JStr (str "b"))];
       JObj [("role", JStr (str "user")); ("content", JStr (str "c"))]])]))
    (fun p => Ok (JObj [("error", p)]))
  = gemini_handler
    (post_request (JObj [("messages", JArr [
       JObj [("role", JStr (str "assistant")); ("content", JStr (str "a"))];
       JObj [("role", JStr (str "user")); ("content", JStr (str "b"))];
       JObj [("role", JStr (str "user")); ("content", JStr (str "c"))]])]))
    (fun _ => Ok (JObj [("error", JStr (str "b"))])).
Proof.
  destruct (gemini_prompt_is_first_user_message
              (post_request (JObj [("messages", JArr [
                 JObj [("role", JStr (str "assistant")); ("content", JStr (str "a"))];
                 JObj [("role", JStr (str "user")); ("content", JStr (str "b"))];
                 JObj [("role", JStr (str "user")); ("content", JStr (str "c"))]])]))
              (fun p => Ok (JObj [("error", p)]))
              [("messages", JArr [
                 JObj [("role", JStr (str "assistant")); ("content", JStr (str "a"))];
                 JObj [("role", JStr (str "user")); ("content", JStr (str "b"))];
                 JObj [("role", JStr (str "user")); ("content", JStr (str "c"))]])]
              [[("role", JStr (str "assistant")); ("content", JStr (str "a"))]]
              [[("role", JStr (str "user")); ("content", JStr (str "c"))]]
              [("role", JStr (str "user")); ("content", JStr (str "b"))]
              eq_refl eq_refl eq_refl eq_refl
              (Forall_cons [("role", JStr (str "assistant")); ("content", JStr (str "a"))]
                 eq_refl (Forall_nil _)) eq_refl) as [H _].
  exact H.
Defined.
